(** * Emby-IPLimit: the session monitor of [scripts/monitor.py]

    A shallow embedding of [EmbyMonitor] (scripts/monitor.py) and of
    [EmbySecurity.disable_user] (scripts/security.py), followed by the
    properties of the session-diffing loop and of the concurrent-IP policy.
    Beside them stand [DatabaseManager] (scripts/database.py) with the
    monitor wired to it, [WebhookNotifier] (scripts/webhook_notifier.py) and
    the merge and check of [load_config] (scripts/config_loader.py), each
    with its own properties.

    Modelling conventions.
    - Python [str] is [string], the UTF-8 bytes of the text. [str.strip] and
      [str.lower] follow the Unicode tables; they are taken from the
      interpreter ([Python]), and the scenarios that are run use their
      ASCII part (white space 9-13, 28-32; letters A-Z).
    - Python [int] is [Z]; [datetime] values are [Z] microseconds.
    - [self.active_sessions] is a [gmap string session_data].
    - The objects the monitor talks to (the Emby client, the database
      manager, [requests], the clock, [time.sleep]) are an oracle over an
      abstract environment: each call maps the environment to a result
      (a value or a raised exception) and a new environment.
    - Every call on such an object and every [print] is written to the list
      of events a computation emits, calls together with their result.
    - [print] itself does not raise.
    - A session descriptor is read through the six keys the monitor uses,
      each a string when present; the dictionary of sessions the client
      returns is the list of its items, in iteration order.
    - [_trigger_alert] writes an event when it is entered, and
      [disable_user] one when it is left, so that "an alert is triggered" and
      "the account was disabled" can be read off the events. *)

From Stdlib Require Import ZArith Ascii String.
From stdpp Require Import gmap strings list fin_maps.

Set Warnings "-clear-no-such-hyp".

Open Scope Z_scope.
Open Scope string_scope.
Open Scope list_scope.

(** ** Python strings *)

Module PyStr.

(** The ASCII part of [str.strip] and [str.lower]: white space is 9-13 and
    28-32, the letters with a case are A-Z. On a string of ASCII characters
    these are what Python computes; on other strings Python follows the
    Unicode tables, which are not written out here (see [Python] below). *)
Definition isspace_ascii (c : ascii) : bool :=
  let n := Ascii.nat_of_ascii c in
  ((9 <=? n)%nat && (n <=? 13)%nat) || ((28 <=? n)%nat && (n <=? 32)%nat).

Fixpoint lstrip_ascii (s : string) : string :=
  match s with
  | EmptyString => EmptyString
  | String c s' => if isspace_ascii c then lstrip_ascii s' else s
  end.

Fixpoint rev_onto (s acc : string) : string :=
  match s with
  | EmptyString => acc
  | String c s' => rev_onto s' (String c acc)
  end.

Definition reverse (s : string) : string := rev_onto s EmptyString.

Definition rstrip_ascii (s : string) : string :=
  reverse (lstrip_ascii (reverse s)).

(** [s.strip()], for [s] in ASCII *)
Definition strip_ascii (s : string) : string := rstrip_ascii (lstrip_ascii s).

Definition lower_char_ascii (c : ascii) : ascii :=
  let n := Ascii.nat_of_ascii c in
  if ((65 <=? n)%nat && (n <=? 90)%nat)%bool
  then Ascii.ascii_of_nat (n + 32) else c.

(** [s.lower()], for [s] in ASCII *)
Fixpoint lower_ascii (s : string) : string :=
  match s with
  | EmptyString => EmptyString
  | String c s' => String (lower_char_ascii c) (lower_ascii s')
  end.

(** [s.split(sep)[0]] for a one-character separator *)
Fixpoint split_head (sep : ascii) (s : string) : string :=
  match s with
  | EmptyString => EmptyString
  | String c s' =>
      if bool_decide (c = sep) then EmptyString
      else String c (split_head sep s')
  end.

(** [s.rstrip(chars)] for a single character *)
Fixpoint lstrip_char (ch : ascii) (s : string) : string :=
  match s with
  | EmptyString => EmptyString
  | String c s' => if bool_decide (c = ch) then lstrip_char ch s' else s
  end.

Definition rstrip_char (ch : ascii) (s : string) : string :=
  reverse (lstrip_char ch (reverse s)).

(** truth value of a string: [bool(s)] *)
Definition truthy (s : string) : bool :=
  match s with EmptyString => false | _ => true end.

End PyStr.

(** [str.strip()] and [str.lower()] follow the Unicode tables of the
    interpreter (white space such as U+00A0 and U+3000, the case of letters
    beyond A-Z). They are taken as the interpreter gives them; nothing below
    depends on what they are. *)
Record Python : Type := {
  str_strip : string -> string;
  str_lower : string -> string
}.

(** The two methods on strings of ASCII characters, for the scenarios that
    are run. *)
Definition ascii_python : Python :=
  {| str_strip := PyStr.strip_ascii; str_lower := PyStr.lower_ascii |}.

(** ** Exceptions and results *)

(** The exception classes the handlers of the monitor tell apart:
    [KeyError] is an [Exception]; [KeyboardInterrupt] and [SystemExit] derive
    from [BaseException] only, so [except Exception] lets them through. *)
Inductive exn : Type :=
| KeyError (key : string)
| Exception (what : string)
| KeyboardInterrupt
| SystemExit.

Definition is_KeyError (e : exn) : bool :=
  match e with KeyError _ => true | _ => false end.

Definition is_Exception (e : exn) : bool :=
  match e with KeyError _ | Exception _ => true | _ => false end.

Definition is_KeyboardInterrupt (e : exn) : bool :=
  match e with KeyboardInterrupt => true | _ => false end.

Inductive result (A : Type) : Type :=
| Ok (a : A)
| Raise (e : exn).
Arguments Ok {A} a.
Arguments Raise {A} e.

(** ** Data *)

(** The "now playing" descriptor, handed unread to the Emby client. *)
Definition media_item : Type := list (string * string).

(** A session descriptor of the Emby API: the keys the monitor reads.
    [None] is an absent key. *)
Record session : Type := {
  session_Id : option string;
  session_UserId : option string;
  session_RemoteEndPoint : option string;
  session_DeviceName : option string;
  session_Client : option string;
  session_NowPlayingItem : option media_item
}.

Record user_info : Type := { user_Name : option string }.

(** The record built at session start and kept in [active_sessions]. *)
Record session_data : Type := {
  session_id : string;
  user_id : string;
  username : string;
  ip : string;
  device : string;
  client : string;
  media : string;
  start_time : Z;
  location : string
}.

Record log_data : Type := {
  log_timestamp : Z;
  log_user_id : string;
  log_username : string;
  log_trigger_ip : string;
  log_active_sessions : Z;
  log_action : string
}.

(** The answer of the geo-IP service. *)
Record ipdata : Type := {
  info1 : option string;
  info2 : option string;
  info3 : option string
}.

Record geo_body : Type := {
  geo_code : option Z;
  geo_ipdata : option ipdata
}.

Record response : Type := {
  status_code : Z;
  json : result geo_body
}.

(** The [dict.get(key, default)] of Python. *)
Definition get_default {A} (o : option A) (d : A) : A :=
  match o with Some a => a | None => d end.

(** ** Events: console output and calls on the collaborating objects *)

Inductive message : Type :=
| msg_update_failed (e : exn)
| msg_whitelist_skip (name : string)
| msg_session_started (name dev addr loc med : string)
| msg_missing_field (e : exn)
| msg_record_failed (e : exn)
| msg_session_ended (name : string) (duration : Z)
| msg_session_gone (sid : string)
| msg_end_failed (e : exn)
| msg_geo_failed (addr : string) (e : exn)
| msg_whitelist_protected (name : string)
| msg_rule
| msg_alert (time : Z) (name addr loc : string) (count : Z)
| msg_alert_failed (e : exn)
| msg_seclog_failed (e : exn)
| msg_service_start (db : string)
| msg_service_stopped
| msg_service_aborted (e : exn)
| msg_disabling (display uid : string)
| msg_disabled (display : string)
| msg_disable_http (status : Z)
| msg_disable_error (display : string) (e : exn).

Inductive event : Type :=
| Print (m : message)
| get_active_sessions_call (r : result (list (string * session)))
| get_user_info_call (uid : string) (r : result user_info)
| parse_media_info_call (item : media_item) (r : result string)
| requests_get_call (url : string) (r : result response)
| record_session_start_call (d : session_data) (r : result unit)
| record_session_end_call (sid : string) (end_time duration : Z)
                          (r : result unit)
| log_security_event_call (d : log_data) (r : result unit)
| disable_user_call (uid name : string) (r : result bool)
| trigger_alert_call (uid trigger_ip : string) (session_count : Z)
| session_post_call (url : string) (IsDisabled : bool) (r : result Z)
| sleep_call (secs : Z) (r : result unit)
| send_ban_notification_call (payload : list (string * string)).

(** ** The outside world *)

Record World : Type := {
  Env : Type;
  (* EmbyClient *)
  emby_get_active_sessions : Env -> result (list (string * session)) * Env;
  emby_get_user_info : string -> Env -> result user_info * Env;
  emby_parse_media_info : media_item -> Env -> result string * Env;
  (* requests.get(url) and requests.Session.post(url, json={"IsDisabled": b}),
     the latter answering with the status code *)
  requests_get : string -> Env -> result response * Env;
  session_post : string -> bool -> Env -> result Z * Env;
  (* datetime.now() and time.sleep(secs) *)
  datetime_now : Env -> Z * Env;
  time_sleep : Z -> Env -> result unit * Env;
  (* DatabaseManager *)
  db_record_session_start : session_data -> Env -> result unit * Env;
  db_record_session_end : string -> Z -> Z -> Env -> result unit * Env;
  db_log_security_event : log_data -> Env -> result unit * Env
}.

(** ** Configuration and the monitor object *)

Record Config : Type := {
  emby_server_url : string;
  database_name : string;
  monitor_check_interval : Z;
  notifications_enable_alerts : bool;
  notifications_alert_threshold : Z;
  security_auto_disable : bool;
  security_whitelist : list string
}.

Record EmbySecurity : Type := { server_url : string }.

Definition EmbySecurity_init (url : string) : EmbySecurity :=
  {| server_url := PyStr.rstrip_char "/" url |}.

(** The fields of [EmbyMonitor] fixed by [__init__], and with them the
    string methods of the interpreter the monitor runs on. *)
Record EmbyMonitor : Type := {
  python : Python;
  config : Config;
  security : EmbySecurity;
  whitelist : list string;
  auto_disable : bool;
  alert_threshold : Z;
  alerts_enabled : bool
}.

(** monitor.py, lines 8-23. *)
Definition EmbyMonitor_init (py : Python) (sec : EmbySecurity) (cfg : Config)
  : EmbyMonitor :=
  {| python := py;
     config := cfg;
     security := sec;
     whitelist :=
       map (fun name => str_lower py (str_strip py name))
           (filter (fun name => PyStr.truthy (str_strip py name) = true)
                   (security_whitelist cfg));
     auto_disable := security_auto_disable cfg;
     alert_threshold := notifications_alert_threshold cfg;
     alerts_enabled := notifications_enable_alerts cfg |}.

(** [username.lower() in self.whitelist] *)
Definition in_whitelist (mon : EmbyMonitor) (name : string) : bool :=
  bool_decide (str_lower (python mon) name ∈ whitelist mon).

(** ** Computations: state, exceptions and emitted events *)

Section Monitor.

Context (W : World).

Record state : Type := {
  active_sessions : gmap string session_data;
  env : Env W
}.

Definition M (A : Type) : Type := state -> result A * state * list event.

Definition ret {A} (a : A) : M A := fun st => (Ok a, st, []).

Definition raise {A} (e : exn) : M A := fun st => (Raise e, st, []).

Definition bind {A B} (m : M A) (k : A -> M B) : M B :=
  fun st =>
    match m st with
    | (Ok a, st1, evs1) =>
        match k a st1 with (r, st2, evs2) => (r, st2, evs1 ++ evs2) end
    | (Raise e, st1, evs1) => (Raise e, st1, evs1)
    end.

(** [try: body / except <class>: handler].  [handler e] is [None] when no
    clause matches [e]. *)
Definition try_except {A} (body : M A) (handler : exn -> option (M A)) : M A :=
  fun st =>
    match body st with
    | (Raise e, st1, evs1) =>
        match handler e with
        | Some h =>
            match h st1 with (r, st2, evs2) => (r, st2, evs1 ++ evs2) end
        | None => (Raise e, st1, evs1)
        end
    | out => out
    end.

Definition print (m : message) : M unit := fun st => (Ok tt, st, [Print m]).

(** Entry of a method of the monitor itself. *)
Definition mark (ev : event) : M unit := fun st => (Ok tt, st, [ev]).

(** A call on a collaborating object whose code is part of the model:
    the event is written when the call is over. *)
Definition observed {A} (m : M A) (ev : result A -> event) : M A :=
  fun st => match m st with (r, st1, evs) => (r, st1, evs ++ [ev r]) end.

(** A call on a collaborating object. *)
Definition call {A} (f : Env W -> result A * Env W) (ev : result A -> event)
  : M A :=
  fun st =>
    match f (env st) with
    | (r, e') =>
        (r, {| active_sessions := active_sessions st; env := e' |}, [ev r])
    end.

Definition now : M Z :=
  fun st =>
    match datetime_now W (env st) with
    | (t, e') =>
        (Ok t, {| active_sessions := active_sessions st; env := e' |}, [])
    end.

Definition get_sessions : M (gmap string session_data) :=
  fun st => (Ok (active_sessions st), st, []).

Definition set_sessions (m : gmap string session_data) : M unit :=
  fun st => (Ok tt, {| active_sessions := m; env := env st |}, []).

(** [d[key]] on a dictionary: [KeyError] when the key is absent. *)
Definition subscript {A} (o : option A) (key : string) : M A :=
  match o with Some a => ret a | None => raise (KeyError key) end.

(** [for x in xs: body x] *)
Fixpoint for_each {A} (xs : list A) (body : A -> M unit) : M unit :=
  match xs with
  | [] => ret tt
  | x :: xs' => bind (body x) (fun _ => for_each xs' body)
  end.

End Monitor.

Arguments active_sessions {W} _.
Arguments env {W} _.
Arguments ret {W A} _ _.
Arguments raise {W A} _ _.
Arguments bind {W A B} _ _ _.
Arguments try_except {W A} _ _ _.
Arguments print {W} _ _.
Arguments mark {W} _ _.
Arguments observed {W A} _ _ _.
Arguments call {W A} _ _ _.
Arguments now {W} _.
Arguments get_sessions {W} _.
Arguments set_sessions {W} _ _.
Arguments subscript {W A} _ _ _.
Arguments for_each {W A} _ _ _.

Declare Scope monitor_scope.
Delimit Scope monitor_scope with mon.
Notation "x ← y ; z" := (bind y (fun x => z))
  (at level 20, y at level 100, z at level 200, only parsing) : monitor_scope.
Notation "x ;; z" := (bind x (fun _ => z))
  (at level 100, z at level 200, only parsing, right associativity)
  : monitor_scope.
Open Scope monitor_scope.

(** The clauses [except KeyError] / [except Exception] / [except
    KeyboardInterrupt], tried in the order written. *)
Definition except_Exception {W A} (h : exn -> M W A) (e : exn)
  : option (M W A) :=
  if is_Exception e then Some (h e) else None.

Definition except_KeyError_Exception {W A} (hk he : exn -> M W A) (e : exn)
  : option (M W A) :=
  if is_KeyError e then Some (hk e)
  else if is_Exception e then Some (he e)
  else None.

(** [sep.join(parts)] *)
Fixpoint join (sep : string) (parts : list string) : string :=
  match parts with
  | [] => ""
  | [p] => p
  | p :: ps => p +:+ sep +:+ join sep ps
  end.

(** [if d.get(key): parts.append(d[key])] *)
Definition append_if_truthy (o : option string) (parts : list string)
  : list string :=
  match o with
  | Some v => if PyStr.truthy v then parts ++ [v] else parts
  | None => parts
  end.

(** ** scripts/security.py: [EmbySecurity.disable_user] *)

Section Security.

Context {W : World}.

(** security.py, lines 13-34. *)
Definition disable_user (sec : EmbySecurity) (uid name : string) : M W bool :=
  let policy_url := server_url sec +:+ "/emby/Users/" +:+ uid +:+ "/Policy" in
  let display_name := if PyStr.truthy name then name else uid in
  observed
    (try_except
       (print (msg_disabling display_name uid);;
        status ← call (session_post W policy_url true)
                      (session_post_call policy_url true);
        if bool_decide (status = 200) || bool_decide (status = 204)
        then print (msg_disabled display_name);; ret true
        else print (msg_disable_http status);; ret false)
       (except_Exception
          (fun e => print (msg_disable_error display_name e);; ret false)))
    (disable_user_call uid name).

End Security.

(** How [run] stands after some passes of its loop: still looping, returned
    through one of its two handlers, or left by an exception neither
    handler takes. *)
Inductive run_status : Type :=
| Looping
| Returned
| Propagated (e : exn).

(** ** scripts/monitor.py: [EmbyMonitor] *)

Section EmbyMonitor.

Context {W : World} (mon : EmbyMonitor).

(** monitor.py, lines 104-132. *)
Definition _get_location (ip_address : string) : M W string :=
  if negb (PyStr.truthy ip_address) then ret "未知位置"
  else
    let api_url := "https://api.vore.top/api/IPdata?ip=" +:+ ip_address in
    try_except
      (resp ← call (requests_get W api_url) (requests_get_call api_url);
       if bool_decide (status_code resp = 200) then
         data ← (match json resp with Ok d => ret d | Raise e => raise e end);
         code ← subscript (geo_code data) "code";
         match bool_decide (code = 200), geo_ipdata data with
         | true, Some ipd =>
             let loc_parts :=
               append_if_truthy (info3 ipd)
                 (append_if_truthy (info2 ipd)
                    (append_if_truthy (info1 ipd) [])) in
             match loc_parts with
             | [] => ret "未知区域"
             | _ => ret (join ", " loc_parts)
             end
         | _, _ => ret "未知区域"
         end
       else ret "解析失败")
      (except_Exception
         (fun e => print (msg_geo_failed ip_address e);; ret "解析失败")).

(** monitor.py, lines 176-189. *)
Definition _log_security_action (uid addr : string) (count : Z)
           (name : string) : M W unit :=
  t ← now;
  let log :=
    {| log_timestamp := t;
       log_user_id := uid;
       log_username := name;
       log_trigger_ip := addr;
       log_active_sessions := count;
       log_action := "DISABLE" |} in
  try_except
    (call (db_log_security_event W log) (log_security_event_call log))
    (except_Exception (fun e => print (msg_seclog_failed e))).

(** monitor.py, lines 147-174. *)
Definition _trigger_alert (uid trigger_ip : string) (session_count : Z)
  : M W unit :=
  mark (trigger_alert_call uid trigger_ip session_count);;
  try_except
    (info ← call (emby_get_user_info W uid) (get_user_info_call uid);
     let name :=
       str_strip (python mon) (get_default (user_Name info) "未知用户") in
     if in_whitelist mon name then print (msg_whitelist_protected name)
     else
       loc ← _get_location trigger_ip;
       t ← now;
       print msg_rule;;
       print (msg_alert t name trigger_ip loc session_count);;
       print msg_rule;;
       if auto_disable mon then
         ok ← disable_user (security mon) uid name;
         if ok : bool
         then _log_security_action uid trigger_ip session_count name
         else ret tt
       else ret tt)
    (except_Exception (fun e => print (msg_alert_failed e))).

(** monitor.py, lines 139-142: the loop of [_check_login_abnormality] that
    fills [existing_ips]. *)
Definition existing_ips (m : gmap string session_data)
           (uid new_ip : string) : gset string :=
  foldl (fun acc sess =>
           if bool_decide (user_id sess = uid)
              && negb (bool_decide (ip sess = new_ip))
           then acc ∪ {[ ip sess ]} else acc)
        ∅ (map_to_list m).*2.

(** monitor.py, lines 134-145. *)
Definition _check_login_abnormality (uid new_ip : string) : M W unit :=
  if negb (alerts_enabled mon) then ret tt
  else
    m ← get_sessions;
    let ips := existing_ips m uid new_ip in
    if bool_decide (alert_threshold mon - 1 <= Z.of_nat (size ips))
    then _trigger_alert uid new_ip (Z.of_nat (size ips) + 1)
    else ret tt.

(** monitor.py, lines 46-87. The dictionary display of [session_data]
    reads [session['Id']] first and the clock after it. *)
Definition _record_session_start (s : session) : M W unit :=
  try_except
    (uid ← subscript (session_UserId s) "UserId";
     info ← call (emby_get_user_info W uid) (get_user_info_call uid);
     let ip_address :=
       PyStr.split_head ":" (get_default (session_RemoteEndPoint s) "") in
     let name :=
       str_strip (python mon) (get_default (user_Name info) "未知用户") in
     if in_whitelist mon name then print (msg_whitelist_skip name)
     else
       let item := get_default (session_NowPlayingItem s) [] in
       media_name ← call (emby_parse_media_info W item)
                         (parse_media_info_call item);
       loc ← _get_location ip_address;
       sid ← subscript (session_Id s) "Id";
       t ← now;
       let data :=
         {| session_id := sid;
            user_id := uid;
            username := name;
            ip := ip_address;
            device := get_default (session_DeviceName s) "未知设备";
            client := get_default (session_Client s) "未知客户端";
            media := media_name;
            start_time := t;
            location := loc |} in
       call (db_record_session_start W data) (record_session_start_call data);;
       m ← get_sessions;
       set_sessions (<[sid := data]> m);;
       print (msg_session_started name (device data) ip_address loc
                                  (media data));;
       _check_login_abnormality uid ip_address)
    (except_KeyError_Exception
       (fun e => print (msg_missing_field e))
       (fun e => print (msg_record_failed e))).

(** monitor.py, lines 89-102. [del] raises [KeyError] on an absent key. *)
Definition _record_session_end (sid : string) : M W unit :=
  try_except
    (m ← get_sessions;
     data ← subscript (m !! sid) sid;
     end_time ← now;
     let duration := Z.quot (end_time - start_time data) 1000000 in
     call (db_record_session_end W sid end_time duration)
          (record_session_end_call sid end_time duration);;
     print (msg_session_ended (username data) duration);;
     m' ← get_sessions;
     _ ← subscript (m' !! sid) sid;
     set_sessions (delete sid m'))
    (except_KeyError_Exception
       (fun _ => print (msg_session_gone sid))
       (fun e => print (msg_end_failed e))).

(** monitor.py, lines 34-38. *)
Definition _detect_new_sessions (current : list (string * session))
  : M W unit :=
  for_each current
    (fun item =>
       m ← get_sessions;
       if bool_decide (is_Some (m !! item.1)) then ret tt
       else _record_session_start item.2).

(** monitor.py, lines 40-44. Python leaves the order in which the set
    [ended] is walked open; here it is the order of [elements]. *)
Definition _detect_ended_sessions (current : list (string * session))
  : M W unit :=
  m ← get_sessions;
  let ended : gset string := dom m ∖ list_to_set current.*1 in
  for_each (elements ended) _record_session_end.

(** monitor.py, lines 25-32. *)
Definition process_sessions : M W unit :=
  try_except
    (current ← call (emby_get_active_sessions W) get_active_sessions_call;
     _detect_new_sessions current;;
     _detect_ended_sessions current)
    (except_Exception (fun e => print (msg_update_failed e))).

(** monitor.py, lines 196-197: one pass of the body of [while True]. *)
Definition loop_body : M W unit :=
  process_sessions;;
  let secs := monitor_check_interval (config mon) in
  call (time_sleep W secs) (sleep_call secs).

(** [while True: body], unrolled [fuel] times: [None] when the loop is
    still going after [fuel] passes, [Some e] when [e] left it. *)
Fixpoint while_True (fuel : nat) (st : state W)
  : option exn * state W * list event :=
  match fuel with
  | O => (None, st, [])
  | S n =>
      match loop_body st with
      | (Ok _, st1, evs1) =>
          match while_True n st1 with
          | (r, st2, evs2) => (r, st2, evs1 ++ evs2)
          end
      | (Raise e, st1, evs1) => (Some e, st1, evs1)
      end
  end.

(** monitor.py, lines 191-201: the [try] statement encloses the loop. *)
Definition run (fuel : nat) (st : state W)
  : run_status * state W * list event :=
  let start := Print (msg_service_start (database_name (config mon))) in
  match while_True fuel st with
  | (None, st1, evs) => (Looping, st1, start :: evs)
  | (Some e, st1, evs) =>
      if is_KeyboardInterrupt e
      then (Returned, st1, start :: evs ++ [Print msg_service_stopped])
      else if is_Exception e
      then (Returned, st1, start :: evs ++ [Print (msg_service_aborted e)])
      else (Propagated e, st1, start :: evs)
  end.

End EmbyMonitor.

(** The state [__init__] leaves: no active session. *)
Definition initial_state {W : World} (e : Env W) : state W :=
  {| active_sessions := ∅; env := e |}.

(** ** A scripted world, to run the monitor on concrete inputs

    The environment counts the fetches made so far; what the collaborators
    answer is read from the script. The clock shows ten seconds per fetch. *)

Record Script : Type := {
  sc_fetch : nat -> result (list (string * session));
  sc_user : nat -> string -> result user_info;
  sc_media : result string;
  sc_geo : result response;
  sc_post : result Z;
  sc_sleep : nat -> result unit;
  sc_db_start : result unit;
  sc_db_end : result unit;
  sc_db_log : result unit
}.

Definition scripted (sc : Script) : World :=
  {| Env := nat;
     emby_get_active_sessions := fun n => (sc_fetch sc n, S n);
     emby_get_user_info := fun uid n => (sc_user sc n uid, n);
     emby_parse_media_info := fun _ n => (sc_media sc, n);
     requests_get := fun _ n => (sc_geo sc, n);
     session_post := fun _ _ n => (sc_post sc, n);
     datetime_now := fun n => (Z.of_nat n * 10000000, n);
     time_sleep := fun _ n => (sc_sleep sc n, n);
     db_record_session_start := fun _ n => (sc_db_start sc, n);
     db_record_session_end := fun _ _ _ n => (sc_db_end sc, n);
     db_log_security_event := fun _ n => (sc_db_log sc, n) |}.

Definition mk_session (sid uid endpoint : string) : session :=
  {| session_Id := Some sid;
     session_UserId := Some uid;
     session_RemoteEndPoint := Some endpoint;
     session_DeviceName := Some "TV";
     session_Client := Some "Emby Web";
     session_NowPlayingItem := None |}.

Definition geo_ok : response :=
  {| status_code := 200;
     json := Ok {| geo_code := Some 200;
                   geo_ipdata := Some {| info1 := Some "CN";
                                         info2 := Some "Shanghai";
                                         info3 := None |} |} |}.

(** Every user is called by its id; every call succeeds. *)
Definition quiet_script (fetch : nat -> list (string * session)) : Script :=
  {| sc_fetch := fun n => Ok (fetch n);
     sc_user := fun _ uid => Ok {| user_Name := Some uid |};
     sc_media := Ok "movie";
     sc_geo := Ok geo_ok;
     sc_post := Ok 204;
     sc_sleep := fun _ => Ok tt;
     sc_db_start := Ok tt;
     sc_db_end := Ok tt;
     sc_db_log := Ok tt |}.

Definition mk_config (threshold : Z) (alerts disable : bool)
           (names : list string) : Config :=
  {| emby_server_url := "https://emby.example.com/";
     database_name := "emby_playback.db";
     monitor_check_interval := 10;
     notifications_enable_alerts := alerts;
     notifications_alert_threshold := threshold;
     security_auto_disable := disable;
     security_whitelist := names |}.

Definition mk_monitor (cfg : Config) : EmbyMonitor :=
  EmbyMonitor_init ascii_python (EmbySecurity_init (emby_server_url cfg)) cfg.

(** The outcome of a computation, by parts. *)
Definition res {W A} (o : result A * state W * list event) : result A := o.1.1.
Definition final {W A} (o : result A * state W * list event) : state W := o.1.2.
Definition emitted {W A} (o : result A * state W * list event) : list event := o.2.

(** ** Concrete scenarios *)

Definition alice_s1 : session := mk_session "S1" "alice" "1.1.1.1:5000".
Definition alice_s2 : session := mk_session "S2" "alice" "2.2.2.2:5000".

(** A session descriptor without its id. *)
Definition nameless_session : session :=
  {| session_Id := None;
     session_UserId := Some "alice";
     session_RemoteEndPoint := Some "1.1.1.1:5000";
     session_DeviceName := None;
     session_Client := None;
     session_NowPlayingItem := None |}.

(** What the scripted world makes of a session of alice started at [t]. *)
Definition alice_data (sid addr : string) (t : Z) : session_data :=
  {| session_id := sid; user_id := "alice"; username := "alice"; ip := addr;
     device := "TV"; client := "Emby Web"; media := "movie";
     start_time := t; location := "CN, Shanghai" |}.

(** First S1, then S1 and S2, then nothing. *)
Definition two_then_none (n : nat) : list (string * session) :=
  match n with
  | O => [("S1", alice_s1)]
  | S O => [("S1", alice_s1); ("S2", alice_s2)]
  | _ => []
  end.

(** S1 at the first fetch only. *)
Definition one_then_none (n : nat) : list (string * session) :=
  match n with O => [("S1", alice_s1)] | _ => [] end.

Definition calm_world : World := scripted (quiet_script two_then_none).



(** The Emby server cannot be reached. *)
Definition unreachable_script : Script :=
  {| sc_fetch := fun _ => Raise (Exception "connection refused");
     sc_user := fun _ uid => Ok {| user_Name := Some uid |};
     sc_media := Ok "movie";
     sc_geo := Ok geo_ok;
     sc_post := Ok 204;
     sc_sleep := fun _ => Ok tt;
     sc_db_start := Ok tt;
     sc_db_end := Ok tt;
     sc_db_log := Ok tt |}.


(** The scripted world before the first fetch, no session active. *)
Definition scripted_start (sc : Script) : state (scripted sc) :=
  initial_state (W:=scripted sc) 0%nat.

(** A state of the scripted world with the given sessions of alice. *)
Definition alice_state (sc : Script) (ds : list session_data)
  : state (scripted sc) :=
  @Build_state (scripted sc)
    (list_to_map ((fun d => (session_id d, d)) <$> ds)) 1%nat.

(** The configuration shipped with the repository: threshold 2. *)
Definition default_monitor : EmbyMonitor :=
  mk_monitor (mk_config 2 true true ["admin"; "user1"; "user2"]).

(** Threshold 1. *)
Definition strict_monitor : EmbyMonitor :=
  mk_monitor (mk_config 1 true true []).

(** Alice is whitelisted, in another case and with blanks around. *)
Definition guarded_monitor : EmbyMonitor :=
  mk_monitor (mk_config 2 true true [" ALICE "]).

(** S2 starts while S1, from another address, is active. *)
Definition second_address_start :=
  _record_session_start (W:=calm_world) default_monitor alice_s2
    (alice_state _ [alice_data "S1" "1.1.1.1" 0]).


(** The first tick of a monitor with threshold 1: S1 alone. *)
Definition strict_first_tick :=
  process_sessions (W:=scripted (quiet_script one_then_none))
    strict_monitor (scripted_start _).



(** An alert for alice, the account gets disabled. *)
Definition disabling_alert :=
  _trigger_alert (W:=calm_world) default_monitor "alice" "2.2.2.2" 2
    (alice_state _ [alice_data "S1" "1.1.1.1" 0; alice_data "S2" "2.2.2.2" 0]).

(** ** Specification vocabulary *)

(** What a computation started in [st] ends with. *)
Definition wp {W A} (m : M W A) (st : state W)
           (Q : result A -> state W -> list event -> Prop) : Prop :=
  Q (res (m st)) (final (m st)) (emitted (m st)).

(** The exceptions the collaborators of a world can raise. *)
Inductive world_raises (W : World) : exn -> Prop :=
| wr_get_active_sessions en e en' :
    emby_get_active_sessions W en = (Raise e, en') -> world_raises W e
| wr_get_user_info uid en e en' :
    emby_get_user_info W uid en = (Raise e, en') -> world_raises W e
| wr_parse_media_info item en e en' :
    emby_parse_media_info W item en = (Raise e, en') -> world_raises W e
| wr_requests_get url en e en' :
    requests_get W url en = (Raise e, en') -> world_raises W e
| wr_json url en resp e en' :
    requests_get W url en = (Ok resp, en') -> json resp = Raise e ->
    world_raises W e
| wr_session_post url b en e en' :
    session_post W url b en = (Raise e, en') -> world_raises W e
| wr_record_session_start d en e en' :
    db_record_session_start W d en = (Raise e, en') -> world_raises W e
| wr_record_session_end sid t dur en e en' :
    db_record_session_end W sid t dur en = (Raise e, en') -> world_raises W e
| wr_log_security_event d en e en' :
    db_log_security_event W d en = (Raise e, en') -> world_raises W e.

(** No interrupt: whatever the Emby client, the database and [requests]
    raise is an [Exception]. ([time.sleep] is left out: it is not called
    inside a tick.) *)
Definition calm (W : World) : Prop :=
  forall e, world_raises W e -> is_Exception e = true.

(** What may leave a [try] whose handler is [except Exception]: an exception
    that is no [Exception], which only a world that is not calm raises. *)
Definition escapes (W : World) (e : exn) : Prop :=
  is_Exception e = false /\ ~ calm W.

(** The key of every entry of the map is the id its record carries. *)
Definition keys_match (m : gmap string session_data) : Prop :=
  forall k d, m !! k = Some d -> session_id d = k.

(** No record of the map belongs to a whitelisted name. *)
Definition whitelist_free (mon : EmbyMonitor) (m : gmap string session_data)
  : Prop :=
  forall k d, m !! k = Some d -> in_whitelist mon (username d) = false.

(** No event persists, disables or notifies for a whitelisted name; the
    monitor never calls the webhook notifier. *)
Definition whitelist_safe (mon : EmbyMonitor) (ev : event) : Prop :=
  match ev with
  | record_session_start_call d _ => in_whitelist mon (username d) = false
  | disable_user_call _ name _ => in_whitelist mon name = false
  | log_security_event_call d _ =>
      in_whitelist mon (log_username d) = false
  | send_ban_notification_call _ => False
  | _ => True
  end.

(** A computation keeps the invariant [I] of the map, emits only events in
    [G], and lets only exceptions in [E] through. *)
Definition triple {W A} (I : gmap string session_data -> Prop)
           (G : event -> Prop) (E : exn -> Prop) (m : M W A) : Prop :=
  forall st, I (active_sessions st) ->
    wp m st (fun r st' evs =>
               I (active_sessions st') /\ Forall G evs /\
               forall e, r = Raise e -> E e).

(** The number of distinct addresses other than [p] among the sessions of
    user [u], in the words of the specification. *)
Definition distinctOtherIPs (m : gmap string session_data) (u p : string)
  : nat :=
  length (remove_dups
            (filter (fun a => a <> p)
               (ip <$> filter (fun d => user_id d = u) (map_to_list m).*2))).


Definition is_start_record (ev : event) : bool :=
  match ev with record_session_start_call _ _ => true | _ => false end.

Definition is_end_record (ev : event) : bool :=
  match ev with record_session_end_call _ _ _ _ => true | _ => false end.

Definition is_security_log (ev : event) : bool :=
  match ev with log_security_event_call _ _ => true | _ => false end.

Definition is_webhook (ev : event) : bool :=
  match ev with send_ban_notification_call _ => true | _ => false end.

(** Console output and calls that only read: the events none of the
    classes above contains. *)
Definition is_quiet (ev : event) : bool :=
  match ev with
  | Print _ | get_user_info_call _ _ | parse_media_info_call _ _
  | requests_get_call _ _ | session_post_call _ _ _ => true
  | _ => false
  end.

Definition quiet (evs : list event) : Prop :=
  Forall (fun ev => is_quiet ev = true) evs.

Definition is_disable (ev : event) : bool :=
  match ev with disable_user_call _ _ _ => true | _ => false end.

(** What handling an alert may emit after its entry: output, reads, the
    disabling of the account and the security log. *)
Definition is_aftermath (ev : event) : bool :=
  is_quiet ev || is_disable ev || is_security_log ev.

(** All the addresses the sessions of user [u] come from. *)
Definition user_ips (m : gmap string session_data) (u : string) : gset string :=
  list_to_set (ip <$> filter (fun d => user_id d = u) (map_to_list m).*2).

(** The address [_get_location] asks the geo service about, and the address
    of the policy of a user. *)
Definition geo_url (addr : string) : string :=
  "https://api.vore.top/api/IPdata?ip=" +:+ addr.

Definition policy_url (sec : EmbySecurity) (uid : string) : string :=
  server_url sec +:+ "/emby/Users/" +:+ uid +:+ "/Policy".

(** ** scripts/database.py: [DatabaseManager]

    A table is the list of its rows, oldest first. The [id] column, which
    SQLite assigns and the code never reads, is left out. A time is stored
    as the text [strftime('%Y-%m-%d %H:%M:%S')] gives, that is, cut to the
    second. Each method is the statement it executes, as it acts when
    SQLite accepts it. *)

Module Database.

Record playback_row : Type := {
  pb_session_id : string;
  pb_user_id : string;
  pb_username : string;
  pb_ip_address : string;
  pb_device_name : string;
  pb_client_type : string;
  pb_media_name : string;
  pb_start_time : Z;
  pb_end_time : option Z;
  pb_duration : option Z;
  pb_location : string
}.

Record security_row : Type := {
  sl_timestamp : Z;
  sl_user_id : string;
  sl_username : string;
  sl_trigger_ip : string;
  sl_active_sessions : Z;
  sl_action : string
}.

Record db : Type := {
  playback_history : list playback_row;
  security_log : list security_row
}.

(** The second a time falls in. *)
Definition strftime (t : Z) : Z := t `div` 1000000.

(** The database [init_db] creates. *)
Definition empty : db := {| playback_history := []; security_log := [] |}.

(** database.py, lines 63-83: INSERT INTO playback_history. *)
Definition start_row (d : session_data) : playback_row :=
  {| pb_session_id := session_id d;
     pb_user_id := user_id d;
     pb_username := username d;
     pb_ip_address := ip d;
     pb_device_name := device d;
     pb_client_type := client d;
     pb_media_name := media d;
     pb_start_time := strftime (start_time d);
     pb_end_time := None;
     pb_duration := None;
     pb_location := location d |}.

Definition record_session_start (d : session_data) (base : db) : db :=
  {| playback_history := playback_history base ++ [start_row d];
     security_log := security_log base |}.

(** database.py, lines 85-97: UPDATE playback_history SET end_time, duration
    WHERE session_id = ?. *)
Definition end_row (sid : string) (end_time duration : Z) (r : playback_row)
  : playback_row :=
  if bool_decide (pb_session_id r = sid)
  then {| pb_session_id := pb_session_id r;
          pb_user_id := pb_user_id r;
          pb_username := pb_username r;
          pb_ip_address := pb_ip_address r;
          pb_device_name := pb_device_name r;
          pb_client_type := pb_client_type r;
          pb_media_name := pb_media_name r;
          pb_start_time := pb_start_time r;
          pb_end_time := Some (strftime end_time);
          pb_duration := Some duration;
          pb_location := pb_location r |}
  else r.

Definition record_session_end (sid : string) (end_time duration : Z)
           (base : db) : db :=
  {| playback_history := end_row sid end_time duration <$> playback_history base;
     security_log := security_log base |}.

(** database.py, lines 99-114: INSERT INTO security_log. *)
Definition log_security_event (l : log_data) (base : db) : db :=
  {| playback_history := playback_history base;
     security_log :=
       security_log base ++
       [{| sl_timestamp := strftime (log_timestamp l);
           sl_user_id := log_user_id l;
           sl_username := log_username l;
           sl_trigger_ip := log_trigger_ip l;
           sl_active_sessions := log_active_sessions l;
           sl_action := log_action l |}] |}.

(** The ids of the sessions that have a row without an end. *)
Definition open_ids (rows : list playback_row) : gset string :=
  list_to_set (pb_session_id <$> filter (fun r => pb_end_time r = None) rows).

End Database.

(** A world that keeps a playback table: [table] reads it off the
    environment; starting and ending a session act on it as the statements
    of [DatabaseManager] do when the database accepts them, and leave it as
    it is when the database raises; no other call touches it. *)
Record keeps_playback_table (W : World)
       (table : Env W -> list Database.playback_row) : Prop := {
  kt_start : forall d en,
    table (db_record_session_start W d en).2 =
    match (db_record_session_start W d en).1 with
    | Ok _ => table en ++ [Database.start_row d]
    | Raise _ => table en
    end;
  kt_end : forall sid t dur en,
    table (db_record_session_end W sid t dur en).2 =
    match (db_record_session_end W sid t dur en).1 with
    | Ok _ => Database.end_row sid t dur <$> table en
    | Raise _ => table en
    end;
  kt_log : forall l en, table (db_log_security_event W l en).2 = table en;
  kt_fetch : forall en, table (emby_get_active_sessions W en).2 = table en;
  kt_user : forall uid en, table (emby_get_user_info W uid en).2 = table en;
  kt_media : forall item en, table (emby_parse_media_info W item en).2 = table en;
  kt_get : forall url en, table (requests_get W url en).2 = table en;
  kt_post : forall url b en, table (session_post W url b en).2 = table en;
  kt_now : forall en, table (datetime_now W en).2 = table en;
  kt_sleep : forall secs en, table (time_sleep W secs en).2 = table en
}.

(** The playback table and the map agree: every session of the map has an
    open row, and an open row belongs to a session of the map or to one of
    the ids in [stale], the rows a former run left open. *)
Definition table_agrees {W : World}
           (table : Env W -> list Database.playback_row)
           (stale : gset string) (st : state W) : Prop :=
  dom (active_sessions st) ⊆ Database.open_ids (table (env st)) /\
  Database.open_ids (table (env st)) ⊆ dom (active_sessions st) ∪ stale.

(** What an operation that writes neither to the map nor to the playback
    table leaves of them. *)
Definition untouched {W : World}
           (table : Env W -> list Database.playback_row)
           (st st' : state W) : Prop :=
  active_sessions st' = active_sessions st /\
  table (env st') = table (env st).

(** The monitor wired to a [DatabaseManager], as main.py does: the
    environment of [W] with the database beside it. The database oracles of
    [W] say whether SQLite accepts the statement; an accepted statement is
    executed, a refused one leaves the database as it was. *)
Definition beside {W : World} {A} (f : Env W -> result A * Env W)
           (en : Env W * Database.db) : result A * (Env W * Database.db) :=
  ((f en.1).1, ((f en.1).2, en.2)).

Definition executing {W : World} (f : Env W -> result unit * Env W)
           (statement : Database.db -> Database.db)
           (en : Env W * Database.db) : result unit * (Env W * Database.db) :=
  match f en.1 with
  | (Ok u, e') => (Ok u, (e', statement en.2))
  | (Raise e, e') => (Raise e, (e', en.2))
  end.

Definition with_database (W : World) : World :=
  {| Env := Env W * Database.db;
     emby_get_active_sessions := beside (emby_get_active_sessions W);
     emby_get_user_info := fun uid => beside (emby_get_user_info W uid);
     emby_parse_media_info := fun item => beside (emby_parse_media_info W item);
     requests_get := fun url => beside (requests_get W url);
     session_post := fun url b => beside (session_post W url b);
     datetime_now := fun en => ((datetime_now W en.1).1,
                                ((datetime_now W en.1).2, en.2));
     time_sleep := fun secs => beside (time_sleep W secs);
     db_record_session_start := fun d =>
       executing (db_record_session_start W d)
                 (Database.record_session_start d);
     db_record_session_end := fun sid t dur =>
       executing (db_record_session_end W sid t dur)
                 (Database.record_session_end sid t dur);
     db_log_security_event := fun l =>
       executing (db_log_security_event W l) (Database.log_security_event l) |}.

(** The playback table of such a world. *)
Definition playback_table {W : World} (en : Env (with_database W))
  : list Database.playback_row :=
  Database.playback_history en.2.

(** The monitor of main.py on a fresh database, three passes over the
    scripted fetches: S1, then S1 and S2, then nothing. *)
Definition fresh_start (sc : Script) : state (with_database (scripted sc)) :=
  initial_state (W:=with_database (scripted sc)) (0%nat, Database.empty).

Definition three_passes :=
  run (W:=with_database (scripted (quiet_script two_then_none)))
      default_monitor 3 (fresh_start _).

(** ** scripts/webhook_notifier.py: [WebhookNotifier]

    The notifier stands apart from the monitor, with an outside of its own:
    [requests.post] and [str.format]. A JSON value is a string, a dict (its
    items in insertion order), a list, or one of the values templates do not
    reach. *)

Module Webhook.

#[warnings="-register-all"] Inductive jvalue : Type :=
| JStr (s : string)
| JDict (items : list (string * jvalue))
| JList (items : list jvalue)
| JInt (n : Z)
| JBool (b : bool)
| JNull.

Definition dict : Type := list (string * jvalue).

(** [d[k] = v]: the value of a key that is there is replaced in its place, a
    new key goes to the end. *)
Fixpoint setitem (k : string) (v : jvalue) (d : dict) : dict :=
  match d with
  | [] => [(k, v)]
  | (k', v') :: rest =>
      if bool_decide (k' = k) then (k', v) :: rest
      else (k', v') :: setitem k v rest
  end.

(** The exception classes the notifier tells apart. [Timeout] is a
    [RequestException]; all but [KeyboardInterrupt] are [Exception]s. *)
Inductive error : Type :=
| KeyError (key : string)
| ValueError (msg : string)
| Timeout
| RequestException (what : string)
| OtherException (what : string)
| KeyboardInterrupt.

Definition is_Exception (e : error) : bool :=
  match e with KeyboardInterrupt => false | _ => true end.

Definition is_ValueError (e : error) : bool :=
  match e with ValueError _ => true | _ => false end.

Definition is_KeyError_or_ValueError (e : error) : bool :=
  match e with KeyError _ | ValueError _ => true | _ => false end.

Inductive outcome (A : Type) : Type :=
| Returns (a : A)
| Raises (e : error).

Arguments Returns {A} _.
Arguments Raises {A} _.

(** What [requests.post] gives: a response with its status code, or an
    exception. *)
Inductive answer : Type :=
| Status (code : Z)
| Fails (e : error).

Inductive level : Type := DEBUG | INFO | WARNING | ERROR.

Inductive line : Type :=
| enabled_without_url
| not_enabled
| no_url
| config_error (e : error)
| build_failed (e : error)
| template_failed (e : error)
| body_missing
| built_payload (payload : dict)
| sent (attempt : Z)
| timed_out (attempt n : Z)
| request_failed (attempt n : Z) (e : error)
| send_exception (attempt n : Z) (e : error)
| gave_up (n : Z).

Inductive event : Type :=
| Log (lv : level) (l : line)
| Post (url : string) (payload : dict) (timeout : Z) (a : answer).

Record Outside : Type := {
  Net : Type;
  requests_post : string -> dict -> Z -> Net -> answer * Net;
  str_format : string -> dict -> outcome string
}.

(** The [webhook] section of the configuration; [None] is a key that is
    not there. *)
Record config : Type := {
  cfg_enabled : option bool;
  cfg_url : option string;
  cfg_timeout : option Z;
  cfg_retry_attempts : option Z;
  cfg_body : option dict
}.

Record WebhookNotifier : Type := {
  enabled : bool;
  url : string;
  timeout : Z;
  retry_attempts : Z;
  body_config : dict
}.

(** webhook_notifier.py, lines 15-37. *)
Definition __init__ (c : config) : WebhookNotifier * list event :=
  let self_enabled := get_default (cfg_enabled c) false in
  let self_url := get_default (cfg_url c) "" in
  let self en :=
    {| enabled := en;
       url := self_url;
       timeout := get_default (cfg_timeout c) 10;
       retry_attempts := get_default (cfg_retry_attempts c) 3;
       body_config := get_default (cfg_body c) [] |} in
  if self_enabled && negb (PyStr.truthy self_url)
  then (self false, [Log WARNING enabled_without_url])
  else (self self_enabled, []).

(** [for k, v in items: result[k] = f(v)] *)
Fixpoint for_items (f : jvalue -> outcome jvalue * list event)
         (items : list (string * jvalue)) (result : dict)
  : outcome dict * list event :=
  match items with
  | [] => (Returns result, [])
  | (k, v) :: rest =>
      match f v with
      | (Returns v', evs) =>
          match for_items f rest (setitem k v' result) with
          | (r, evs') => (r, evs ++ evs')
          end
      | (Raises e, evs) => (Raises e, evs)
      end
  end.

(** [[f(item) for item in items]] *)
Fixpoint comprehension (f : jvalue -> outcome jvalue * list event)
         (items : list jvalue) : outcome (list jvalue) * list event :=
  match items with
  | [] => (Returns [], [])
  | item :: rest =>
      match f item with
      | (Returns v', evs) =>
          match comprehension f rest with
          | (Returns vs, evs') => (Returns (v' :: vs), evs ++ evs')
          | (Raises e, evs') => (Raises e, evs ++ evs')
          end
      | (Raises e, evs) => (Raises e, evs)
      end
  end.

Section Notifier.

Context (out : Outside).

(** webhook_notifier.py, lines 78-107. *)
Fixpoint _format_template (value : jvalue) (user_info : dict)
  : outcome jvalue * list event :=
  match value with
  | JStr s =>
      match str_format out s user_info with
      | Returns s' => (Returns (JStr s'), [])
      | Raises e =>
          if is_KeyError_or_ValueError e
          then (Returns (JStr s), [Log WARNING (template_failed e)])
          else (Raises e, [])
      end
  | JDict items =>
      match for_items (fun v => _format_template v user_info) items [] with
      | (Returns result, evs) => (Returns (JDict result), evs)
      | (Raises e, evs) => (Raises e, evs)
      end
  | JList items =>
      match comprehension (fun v => _format_template v user_info) items with
      | (Returns result, evs) => (Returns (JList result), evs)
      | (Raises e, evs) => (Raises e, evs)
      end
  | other => (Returns other, [])
  end.

(** webhook_notifier.py, lines 109-144. *)
Definition _build_payload (self : WebhookNotifier) (user_info : dict)
  : outcome dict * list event :=
  match for_items (fun v => _format_template v user_info)
                  (body_config self) [] with
  | (Returns payload, evs) =>
      match payload with
      | [] =>
          (Raises (ValueError "Webhook body配置缺失，请查看日志了解配置方法"),
           evs ++ [Log ERROR body_missing])
      | _ => (Returns payload, evs ++ [Log DEBUG (built_payload payload)])
      end
  | (Raises e, evs) => (Raises e, evs)
  end.

(** [response.raise_for_status()]: an [HTTPError], which is a
    [RequestException], for the codes from 400 to 599. *)
Definition raise_for_status (code : Z) : bool :=
  bool_decide (400 <= code) && bool_decide (code < 600).

(** webhook_notifier.py, lines 159-180: the passes of
    [for attempt in range(self.retry_attempts)] that are still to come. *)
Fixpoint attempts (self : WebhookNotifier) (payload : dict)
         (todo : nat) (attempt : Z) (net : Net out)
  : outcome bool * Net out * list event :=
  match todo with
  | O => (Returns false, net, [Log ERROR (gave_up (retry_attempts self))])
  | S todo' =>
      let '(a, net') :=
        requests_post out (url self) payload (timeout self) net in
      let post := Post (url self) payload (timeout self) a in
      let again (l : event) :=
        match attempts self payload todo' (attempt + 1) net' with
        | (r, net'', evs) => (r, net'', post :: l :: evs)
        end in
      match a with
      | Status code =>
          if raise_for_status code
          then again (Log WARNING
                        (request_failed (attempt + 1) (retry_attempts self)
                                        (RequestException "HTTPError")))
          else (Returns true, net', [post; Log INFO (sent (attempt + 1))])
      | Fails Timeout =>
          again (Log WARNING (timed_out (attempt + 1) (retry_attempts self)))
      | Fails (RequestException what) =>
          again (Log WARNING
                   (request_failed (attempt + 1) (retry_attempts self)
                                   (RequestException what)))
      | Fails e =>
          if is_Exception e
          then again (Log ERROR
                        (send_exception (attempt + 1) (retry_attempts self) e))
          else (Raises e, net', [post])
      end
  end.

(** webhook_notifier.py, lines 146-180. *)
Definition _send_request (self : WebhookNotifier) (payload : dict)
           (net : Net out) : outcome bool * Net out * list event :=
  if negb (PyStr.truthy (url self)) then (Returns false, net, [])
  else attempts self payload (Z.to_nat (retry_attempts self)) 0 net.

(** webhook_notifier.py, lines 39-76. *)
Definition send_ban_notification (self : WebhookNotifier) (user_info : dict)
           (net : Net out) : outcome bool * Net out * list event :=
  if negb (enabled self) then (Returns false, net, [Log INFO not_enabled])
  else if negb (PyStr.truthy (url self))
  then (Returns false, net, [Log ERROR no_url])
  else
    let handle (e : error) (net' : Net out) (evs : list event) :=
      if is_ValueError e
      then (Returns false, net', evs ++ [Log ERROR (config_error e)])
      else if is_Exception e
      then (Returns false, net', evs ++ [Log ERROR (build_failed e)])
      else (Raises e, net', evs) in
    match _build_payload self user_info with
    | (Returns payload, evs) =>
        match _send_request self payload net with
        | (Returns b, net', evs') => (Returns b, net', evs ++ evs')
        | (Raises e, net', evs') => handle e net' (evs ++ evs')
        end
    | (Raises e, evs) => handle e net evs
    end.

End Notifier.

(** The posts among the events. *)
Definition is_post (ev : event) : bool :=
  match ev with Post _ _ _ _ => true | Log _ _ => false end.

Definition posts (evs : list event) : list event :=
  filter (fun ev => is_post ev = true) evs.

(** A post that went through: a response whose status is no error. *)
Definition went_through (ev : event) : bool :=
  match ev with
  | Post _ _ _ (Status code) => negb (raise_for_status code)
  | _ => false
  end.

(** What [todo] passes of the loop of [_send_request] leave: every post
    goes to the url of the notifier with the given payload and timeout; the
    answer is [True] at the first post that goes through, an exception that
    is no [Exception] at the post that raised it, and [False] after [todo]
    posts none of which went through. *)
Definition tried (self : WebhookNotifier) (payload : dict) (todo : nat)
           (r : outcome bool) (evs : list event) : Prop :=
  Forall (fun ev => exists a,
            ev = Post (url self) payload (timeout self) a) (posts evs) /\
  match r with
  | Returns true =>
      exists pre last,
        posts evs = pre ++ [last] /\ went_through last = true /\
        Forall (fun ev => went_through ev = false) pre /\
        (length pre < todo)%nat
  | Returns false =>
      length (posts evs) = todo /\
      Forall (fun ev => went_through ev = false) (posts evs)
  | Raises e =>
      is_Exception e = false /\
      exists pre,
        posts evs = pre ++ [Post (url self) payload (timeout self) (Fails e)] /\
        Forall (fun ev => went_through ev = false) pre /\
        (length pre < todo)%nat
  end.

(** The keys of a dict, in order. *)
Definition keys (d : dict) : list string := d.*1.

(** [w] is [v] with its templates filled in: a string is what [str.format]
    makes of it, or itself where [str.format] misses a key or rejects the
    template; a dict has the same keys in the same order, a list the same
    length; the other values are the same. *)
Fixpoint rendered (out : Outside) (info : dict) (v w : jvalue) : Prop :=
  match v, w with
  | JStr s, JStr s' =>
      str_format out s info = Returns s' \/
      (s' = s /\ exists e, str_format out s info = Raises e /\
                           is_KeyError_or_ValueError e = true)
  | JDict d, JDict d' =>
      (fix items (d d' : list (string * jvalue)) : Prop :=
         match d, d' with
         | [], [] => True
         | (k, x) :: r, (k', x') :: r' =>
             k = k' /\ rendered out info x x' /\ items r r'
         | _, _ => False
         end) d d'
  | JList l, JList l' =>
      (fix each (l l' : list jvalue) : Prop :=
         match l, l' with
         | [], [] => True
         | x :: r, x' :: r' => rendered out info x x' /\ each r r'
         | _, _ => False
         end) l l'
  | JInt n, JInt n' => n = n'
  | JBool b, JBool b' => b = b'
  | JNull, JNull => True
  | _, _ => False
  end.

(** A value as Python has it: no dict in it holds a key twice. *)
Fixpoint well_formed (v : jvalue) : Prop :=
  match v with
  | JDict d =>
      NoDup d.*1 /\
      (fix items (d : list (string * jvalue)) : Prop :=
         match d with
         | [] => True
         | (_, x) :: r => well_formed x /\ items r
         end) d
  | JList l =>
      (fix each (l : list jvalue) : Prop :=
         match l with
         | [] => True
         | x :: r => well_formed x /\ each r
         end) l
  | _ => True
  end.

(** A formatter whose only failures are the two [_format_template]
    catches. *)
Definition formats_or_misses (out : Outside) : Prop :=
  forall s info e, str_format out s info = Raises e ->
                   is_KeyError_or_ValueError e = true.

(** A scripted outside: the net counts the posts made, the answers are read
    from the script. The formatter knows the field [{username}], rejects a
    lone brace, and finds nothing to fill in elsewhere. *)
Definition sample_format (s : string) (info : dict) : outcome string :=
  if bool_decide (s = "{username}") then
    match list_find (fun kv => kv.1 = "username") info with
    | Some (_, (_, JStr name)) => Returns name
    | _ => Raises (KeyError "username")
    end
  else if bool_decide (s = "{") then
    Raises (ValueError "Single '{' encountered in format string")
  else Returns s.

Definition scripted_outside (answers : nat -> answer) : Outside :=
  {| Net := nat;
     requests_post := fun _ _ _ n => (answers n, S n);
     str_format := sample_format |}.

(** A body with a template that fills in, one that is rejected, and a
    nested list. *)
Definition sample_body : dict :=
  [("title", JStr "{username}");
   ("text", JStr "{");
   ("tags", JList [JStr "ban"; JInt 1])].

Definition sample_notifier : WebhookNotifier :=
  {| enabled := true;
     url := "https://hooks.example.com/x";
     timeout := 10;
     retry_attempts := 3;
     body_config := sample_body |}.

Definition sample_info : dict := [("username", JStr "alice")].

End Webhook.

(** ** scripts/config_loader.py: [load_config], lines 63-88

    The merge of the user's configuration into [DEFAULT_CONFIG] and the
    check of the required fields. A configuration maps the name of a
    section to the section, a mapping from field names to values, or to
    nothing when the file names the section and leaves it empty (YAML's
    null). [DEFAULT_CONFIG.copy()] is a shallow copy: the sections of
    [config] that come from [DEFAULT_CONFIG] are the very objects of
    [DEFAULT_CONFIG], and [update] changes them for both; the state of
    [DEFAULT_CONFIG] is therefore passed along. *)

Module ConfigLoader.

Import Webhook.

Definition section : Type := gmap string jvalue.

(** [bool(v)] *)
Definition truthy (v : jvalue) : bool :=
  match v with
  | JStr s => PyStr.truthy s
  | JDict d => match d with [] => false | _ => true end
  | JList l => match l with [] => false | _ => true end
  | JInt n => negb (bool_decide (n = 0))
  | JBool b => b
  | JNull => false
  end.

(** config_loader.py, lines 17-36. *)
Definition DEFAULT_CONFIG : gmap string section :=
  list_to_map
    [("emby", list_to_map [("server_url", JStr "https://emby.example.com");
                           ("api_key", JStr "your_api_key_here")]);
     ("database", list_to_map [("name", JStr "emby_playback.db")]);
     ("monitor", list_to_map [("check_interval", JInt 10)]);
     ("notifications", list_to_map [("enable_alerts", JBool true);
                                    ("alert_threshold", JInt 2)]);
     ("security", list_to_map
                    [("auto_disable", JBool true);
                     ("whitelist",
                      JList [JStr "admin"; JStr "user1"; JStr "user2"])])].

(** What [load_config] ends with: the configuration it returns, [exit(1)]
    after the missing fields are printed, or an exception ([update] with
    nothing, [get] on nothing). With the first two comes the state
    [DEFAULT_CONFIG] is left in. *)
Inductive loaded : Type :=
| Returns (config : gmap string (option section))
          (defaults : gmap string section)
| Exits (missing : list string) (defaults : gmap string section)
| Raises.

(** One pass of the loop of lines 65-69; [None] once an exception is
    raised. A section of [config] that is in [DEFAULT_CONFIG] is the object
    [DEFAULT_CONFIG] holds. *)
Definition merge_section (sec : string) (val : option section)
           (acc : option (gmap string (option section) * gmap string section))
  : option (gmap string (option section) * gmap string section) :=
  match acc with
  | None => None
  | Some (config, defaults) =>
      match config !! sec with
      | Some target =>
          match target, val with
          | Some t, Some s =>
              Some (<[sec := Some (s ∪ t)]> config,
                    if bool_decide (is_Some (defaults !! sec))
                    then <[sec := s ∪ t]> defaults else defaults)
          | _, _ => None
          end
      | None => Some (<[sec := val]> config, defaults)
      end
  end.

(** [not config.get(section, {}).get(field)]; [None] when [get] is called
    on nothing. *)
Definition field_missing (config : gmap string (option section))
           (sec field : string) : option bool :=
  match config !! sec with
  | None => Some true
  | Some None => None
  | Some (Some d) =>
      Some (negb (match d !! field with Some v => truthy v | None => false end))
  end.

(** Lines 72-80. *)
Fixpoint missing_fields (config : gmap string (option section))
         (required : list (string * string)) : option (list string) :=
  match required with
  | [] => Some []
  | (sec, field) :: rest =>
      match field_missing config sec field, missing_fields config rest with
      | Some true, Some l => Some ((sec +:+ "." +:+ field) :: l)
      | Some false, Some l => Some l
      | _, _ => None
      end
  end.

Definition required_fields : list (string * string) :=
  [("emby", "server_url"); ("emby", "api_key")].

(** Lines 63-88. The loop walks the sections of the user in the order of the
    map, which is not the order of the file; the sections do not depend on
    one another. *)
Definition load_config (user_config : gmap string (option section))
           (defaults : gmap string section) : loaded :=
  match map_fold merge_section (Some (Some <$> defaults, defaults))
                 user_config with
  | None => Raises
  | Some (config, defaults') =>
      match missing_fields config required_fields with
      | None => Raises
      | Some [] => Returns config defaults'
      | Some missing => Exits missing defaults'
      end
  end.

(** The value of a field of a section of a configuration. *)
Definition field (config : gmap string (option section))
           (sec name : string) : option jvalue :=
  match config !! sec with
  | Some (Some d) => d !! name
  | _ => None
  end.

(** A user configuration that leaves a section of the defaults empty. *)
Definition empties_a_section (user_config : gmap string (option section))
           (defaults : gmap string section) : Prop :=
  exists sec, is_Some (defaults !! sec) /\ user_config !! sec = Some None.

(** The required fields the user sets to a value that counts as false
    (an empty string, null, zero), as [load_config] names them. *)
Definition emptied (user_config : gmap string (option section))
           (sec name : string) : list string :=
  match field user_config sec name with
  | Some v => if truthy v then [] else [sec +:+ "." +:+ name]
  | None => []
  end.

(** A user configuration with its own server and a new section. *)
Definition sample_user_config : gmap string (option section) :=
  list_to_map
    [("emby", Some (list_to_map [("server_url", JStr "http://10.0.0.2:8096")]));
     ("webhook", Some (list_to_map [("enabled", JBool false)]))].

(** What [load_config] makes of it, and what it leaves of the defaults. *)
Definition sample_defaults : gmap string section :=
  <["emby" := list_to_map [("server_url", JStr "http://10.0.0.2:8096");
                           ("api_key", JStr "your_api_key_here")]]>
    DEFAULT_CONFIG.

Definition sample_config : gmap string (option section) :=
  <["webhook" := Some (list_to_map [("enabled", JBool false)])]>
    (Some <$> sample_defaults).

End ConfigLoader.

(** * Properties *)

(** ** Rules for [wp] *)

Section Rules.

Context {W : World}.

Implicit Types st : state W.

Lemma wp_mono {A} (m : M W A) st (Q Q' : result A -> state W -> list event -> Prop) :
  wp m st Q -> (forall r st' evs, Q r st' evs -> Q' r st' evs) -> wp m st Q'.
Proof. unfold wp. auto. Qed.

Lemma wp_ret {A} (a : A) st Q : Q (Ok a) st [] -> wp (ret a) st Q.
Proof. done. Qed.

Lemma wp_raise {A} e st (Q : result A -> _) : Q (Raise e) st [] -> wp (raise e) st Q.
Proof. done. Qed.

Lemma wp_print m st Q : Q (Ok tt) st [Print m] -> wp (print m) st Q.
Proof. done. Qed.

Lemma wp_mark ev st Q : Q (Ok tt) st [ev] -> wp (mark ev) st Q.
Proof. done. Qed.

Lemma wp_get st Q : Q (Ok (active_sessions st)) st [] -> wp get_sessions st Q.
Proof. done. Qed.

Lemma wp_set m st Q :
  Q (Ok tt) {| active_sessions := m; env := env st |} [] ->
  wp (set_sessions m) st Q.
Proof. done. Qed.

Lemma wp_call {A} (f : Env W -> result A * Env W) ev st Q :
  (forall r e', f (env st) = (r, e') ->
     Q r {| active_sessions := active_sessions st; env := e' |} [ev r]) ->
  wp (call f ev) st Q.
Proof.
  intros H. unfold wp, call. destruct (f (env st)) as [r e'] eqn:Hf.
  by apply H.
Qed.

Lemma wp_now st Q :
  (forall t e', datetime_now W (env st) = (t, e') ->
     Q (Ok t) {| active_sessions := active_sessions st; env := e' |} []) ->
  wp now st Q.
Proof.
  intros H. unfold wp, now. destruct (datetime_now W (env st)) as [t e'] eqn:Hf.
  by apply H.
Qed.

Lemma wp_bind {A B} (m : M W A) (k : A -> M W B) st Q :
  wp m st (fun r st1 evs1 =>
             match r with
             | Ok a => wp (k a) st1 (fun r2 st2 evs2 => Q r2 st2 (evs1 ++ evs2))
             | Raise e => Q (Raise e) st1 evs1
             end) ->
  wp (bind m k) st Q.
Proof.
  unfold wp, bind, res, final, emitted.
  destruct (m st) as [[[a|e] st1] evs1]; simpl; [|done].
  by destruct (k a st1) as [[r2 st2] evs2].
Qed.

Lemma wp_try {A} (body : M W A) handler st Q :
  wp body st (fun r st1 evs1 =>
                match r with
                | Ok a => Q (Ok a) st1 evs1
                | Raise e =>
                    match handler e with
                    | Some h =>
                        wp h st1 (fun r2 st2 evs2 => Q r2 st2 (evs1 ++ evs2))
                    | None => Q (Raise e) st1 evs1
                    end
                end) ->
  wp (try_except body handler) st Q.
Proof.
  unfold wp, try_except, res, final, emitted.
  destruct (body st) as [[[a|e] st1] evs1]; simpl; [done|].
  destruct (handler e) as [h|]; [|done].
  by destruct (h st1) as [[r2 st2] evs2].
Qed.

Lemma wp_observed {A} (m : M W A) ev st Q :
  wp m st (fun r st1 evs => Q r st1 (evs ++ [ev r])) ->
  wp (observed m ev) st Q.
Proof.
  unfold wp, observed, res, final, emitted.
  by destruct (m st) as [[r st1] evs].
Qed.

End Rules.

(** Steps for the operations whose specification is already proved; filled
    in as the development goes. *)
Ltac wp_known := fail.

Ltac wp_step :=
  lazymatch goal with
  | |- wp (bind _ _) _ _ => apply wp_bind
  | |- wp (try_except _ _) _ _ => apply wp_try
  | |- wp (observed _ _) _ _ => apply wp_observed
  | |- wp (ret _) _ _ => apply wp_ret
  | |- wp (raise _) _ _ => apply wp_raise
  | |- wp (print _) _ _ => apply wp_print
  | |- wp (mark _) _ _ => apply wp_mark
  | |- wp get_sessions _ _ => apply wp_get
  | |- wp (set_sessions _) _ _ => apply wp_set
  | |- wp (call _ _) _ _ => apply wp_call; intros [?|?] ? ?
  | |- wp now _ _ => apply wp_now; intros ? ? ?
  | |- wp (subscript ?o _) _ _ =>
      unfold subscript; destruct o eqn:?; [apply wp_ret | apply wp_raise]
  | |- wp (if ?b then _ else _) _ _ => destruct b eqn:?
  | |- wp (match ?x with _ => _ end) _ _ => destruct x eqn:?
  | |- match except_Exception _ ?e with _ => _ end =>
      unfold except_Exception; destruct (is_Exception e) eqn:?
  | |- match except_KeyError_Exception _ _ ?e with _ => _ end =>
      unfold except_KeyError_Exception;
      destruct (is_KeyError e) eqn:?; [|destruct (is_Exception e) eqn:?]
  | |- wp _ _ _ => wp_known
  end; cbv beta iota.

Ltac wp_steps := repeat wp_step.

(** The exception part of a postcondition, at the end of a path. *)
Ltac solve_escapes :=
  let e := fresh "e" in
  let H := fresh "H" in
  intros e H;
  first
    [ discriminate H
    | injection H as <-;
      first
        [ congruence
        | solve [eauto]
        | split; [done | intros Hc; exfalso ];
          match goal with
          | Hc : calm _ |- _ =>
              unshelve (epose proof (Hc _ _) as Hx);
              [ | econstructor; eassumption | congruence ]
          end ] ].

Ltac leaf :=
  simpl in *;
  repeat match goal with |- _ /\ _ => split end;
  try first
    [ done
    | discriminate
    | solve [repeat (constructor; simpl; try done)]
    | solve [solve_escapes] ].

(** ** The helpers: geo lookup, disabling, security log *)

Section Helpers.

Context {W : World}.

Implicit Types st : state W.

(** [_get_location] leaves the map alone, talks to the geo service only, and
    hands every [Exception] to its own handler. *)
Lemma get_location_spec addr st :
  wp (_get_location addr) st (fun r st' evs =>
    active_sessions st' = active_sessions st /\
    quiet evs /\
    forall e, r = Raise e -> escapes W e).
Proof.
  unfold _get_location, quiet. wp_steps; leaf.
Qed.

(** [disable_user] answers [True] exactly when the policy request came back
    with status 200 or 204; any [Exception] makes it answer [False]. *)
Lemma disable_user_spec sec uid name st :
  wp (disable_user sec uid name) st (fun r st' evs =>
    active_sessions st' = active_sessions st /\
    (exists pre, evs = pre ++ [disable_user_call uid name r] /\ quiet pre /\
       (r = Ok true <->
        exists url status,
          session_post_call url true (Ok status) ∈ pre /\
          (status = 200 \/ status = 204))) /\
    forall e, r = Raise e -> escapes W e).
Proof.
  unfold disable_user, quiet.
  wp_steps; (split; [done|]); (split; [|by leaf]).
  all: eexists; split; [reflexivity|]; simpl in *.
  all: split; [by repeat constructor|].
  all: split; [intros; simplify_eq|intros (url & status & Hin & Hst)].
  all: try done.
  all: repeat match goal with
         | H : _ || _ = true |- _ => apply orb_true_iff in H
         | H : _ || _ = false |- _ => apply orb_false_iff in H as [? ?]
         | H : bool_decide _ = false |- _ => apply bool_decide_eq_false_1 in H
         end.
  1: { do 2 eexists. split; [apply list_elem_of_further, list_elem_of_here|].
       destruct Heqb as [Hb|Hb]; apply bool_decide_eq_true_1 in Hb; auto. }
  all: set_unfold in Hin; naive_solver.
Qed.

Lemma log_security_action_spec uid addr count name st :
  wp (_log_security_action uid addr count name) st (fun r st' evs =>
    active_sessions st' = active_sessions st /\
    (exists t r' post,
       evs = log_security_event_call
               {| log_timestamp := t; log_user_id := uid;
                  log_username := name; log_trigger_ip := addr;
                  log_active_sessions := count; log_action := "DISABLE" |} r'
             :: post /\ quiet post) /\
    forall e, r = Raise e -> escapes W e).
Proof.
  unfold _log_security_action, quiet. wp_steps; leaf.
  all: do 3 eexists; split; [reflexivity|]; by repeat constructor.
Qed.

Lemma quiet_safe mon evs : quiet evs -> Forall (whitelist_safe mon) evs.
Proof. intros H. eapply Forall_impl; [exact H|]. by intros []. Qed.

Lemma quiet_aftermath evs : quiet evs -> Forall (fun ev => is_aftermath ev = true) evs.
Proof. intros H. eapply Forall_impl; [exact H|]. by intros []. Qed.

End Helpers.

Ltac wp_known ::=
  lazymatch goal with
  | |- wp (_get_location _) _ _ =>
      eapply wp_mono; [apply get_location_spec|];
      cbv beta; intros [?|?] ? ? (? & ? & ?)
  | |- wp (disable_user _ _ _) _ _ =>
      eapply wp_mono; [apply disable_user_spec|];
      cbv beta; intros [[|]|?] ? ? (? & (? & -> & ? & ?) & ?)
  | |- wp (_log_security_action _ _ _ _) _ _ =>
      eapply wp_mono; [apply log_security_action_spec|];
      cbv beta; intros [[]|?] ? ? (? & (? & ? & ? & -> & ?) & ?)
  end.

(** Splitting a [Forall] over the events of a path. *)
Ltac forall_events :=
  repeat first [rewrite Forall_app | rewrite Forall_cons | rewrite Forall_nil];
  repeat match goal with |- _ /\ _ => split end;
  simpl; try done;
  eauto using quiet_safe, quiet_aftermath.

(** ** Alerts *)

Section Alerts.

Context {W : World} (mon : EmbyMonitor).

Implicit Types st : state W.

(** Handling an alert leaves the map alone, starts with its entry mark and
    never acts on a whitelisted name. *)
Lemma trigger_alert_spec uid addr count st :
  wp (_trigger_alert mon uid addr count) st (fun r st' evs =>
    active_sessions st' = active_sessions st /\
    Forall (whitelist_safe mon) evs /\
    (exists body, evs = trigger_alert_call uid addr count :: body /\
       Forall (fun ev => is_aftermath ev = true) body) /\
    forall e, r = Raise e -> escapes W e).
Proof.
  unfold _trigger_alert.
  wp_steps; (split; [simpl in *; congruence|]).
  all: split; [forall_events|].
  all: (split; [|by leaf]).
  all: eexists; (split; [reflexivity|]); forall_events.
Qed.

End Alerts.

(** ** The concurrent-IP check *)

Section Check.

Context {W : World} (mon : EmbyMonitor).

Implicit Types st : state W.
Implicit Types m : gmap string session_data.

(** The loop of the source collects, one session at a time, what the
    specification describes as a set. *)
Lemma existing_ips_loop (l : list session_data) (acc : gset string) u p :
  foldl (fun acc sess =>
           if bool_decide (user_id sess = u) && negb (bool_decide (ip sess = p))
           then acc ∪ {[ ip sess ]} else acc) acc l
  = acc ∪ list_to_set
            (filter (fun a => a <> p) (ip <$> filter (fun d => user_id d = u) l)).
Proof.
  revert acc. induction l as [|d l IH]; intros acc; simpl.
  - set_solver.
  - rewrite IH. rewrite filter_cons.
    destruct (decide (user_id d = u)) as [Hu|Hu].
    + rewrite (bool_decide_eq_true_2 _ Hu). simpl. rewrite filter_cons.
      destruct (decide (ip d <> p)) as [Hp|Hp].
      * rewrite bool_decide_eq_false_2 by done. simpl. set_solver.
      * apply dec_stable in Hp. rewrite (bool_decide_eq_true_2 _ Hp). simpl.
        done.
    + rewrite (bool_decide_eq_false_2 _ Hu). simpl. done.
Qed.

Lemma existing_ips_set m u p :
  existing_ips m u p =
  list_to_set
    (filter (fun a => a <> p)
       (ip <$> filter (fun d => user_id d = u) (map_to_list m).*2)).
Proof. unfold existing_ips. rewrite existing_ips_loop. set_solver. Qed.

Lemma existing_ips_size m u p :
  size (existing_ips m u p) = distinctOtherIPs m u p.
Proof.
  rewrite existing_ips_set. unfold distinctOtherIPs.
  set (l := filter _ _).
  rewrite <- (size_list_to_set (C:=gset string) (remove_dups l))
    by apply NoDup_remove_dups.
  f_equal. apply set_eq. intros a.
  by rewrite !elem_of_list_to_set, elem_of_remove_dups.
Qed.

Lemma elem_of_existing_ips m u p a :
  a ∈ existing_ips m u p <->
  a <> p /\ exists k d, m !! k = Some d /\ user_id d = u /\ ip d = a.
Proof.
  rewrite existing_ips_set, elem_of_list_to_set, list_elem_of_filter.
  rewrite list_elem_of_fmap. split.
  - intros (Hne & d & -> & Hd). split; [done|].
    apply list_elem_of_filter in Hd as [Hu Hd].
    apply list_elem_of_fmap in Hd as ([k d'] & -> & Hkd).
    apply elem_of_map_to_list in Hkd. eauto.
  - intros (Hne & k & d & Hkd & Hu & <-). split; [done|].
    exists d. split; [done|]. apply list_elem_of_filter. split; [done|].
    apply list_elem_of_fmap. exists (k, d). split; [done|].
    by apply elem_of_map_to_list.
Qed.

(** A user whose sessions all come from [p] has no other address. *)
Lemma existing_ips_same_ip m u p :
  map_Forall (fun _ d => user_id d = u -> ip d = p) m ->
  existing_ips m u p = ∅.
Proof.
  intros Hall. apply set_eq. intros a. rewrite elem_of_existing_ips.
  split; [|set_solver].
  intros (Hne & k & d & Hkd & Hu & <-). destruct Hne. by eapply Hall.
Qed.

(** What the check does, by the number of other addresses. *)
Lemma check_login_abnormality_unfold u p st :
  _check_login_abnormality mon u p st =
  let n := Z.of_nat (distinctOtherIPs (active_sessions st) u p) in
  if alerts_enabled mon && bool_decide (alert_threshold mon - 1 <= n)
  then _trigger_alert mon u p (n + 1) st
  else (Ok tt, st, []).
Proof.
  unfold _check_login_abnormality. destruct (alerts_enabled mon); simpl; [|done].
  unfold bind, get_sessions. rewrite existing_ips_size.
  destruct (bool_decide _); simpl; [|done].
  by destruct (_trigger_alert _ _ _ _ _) as [[??]?].
Qed.

Lemma check_login_abnormality_spec u p st :
  wp (_check_login_abnormality mon u p) st (fun r st' evs =>
    active_sessions st' = active_sessions st /\
    Forall (whitelist_safe mon) evs /\
    (let n := Z.of_nat (distinctOtherIPs (active_sessions st) u p) in
     if alerts_enabled mon && bool_decide (alert_threshold mon - 1 <= n)
     then exists body, evs = trigger_alert_call u p (n + 1) :: body /\
            Forall (fun ev => is_aftermath ev = true) body
     else evs = []) /\
    forall e, r = Raise e -> escapes W e).
Proof.
  unfold wp. rewrite check_login_abnormality_unfold. cbv zeta.
  destruct (_ && _).
  - apply trigger_alert_spec.
  - simpl. by repeat split.
Qed.

End Check.

Ltac wp_known ::=
  lazymatch goal with
  | |- wp (_get_location _) _ _ =>
      eapply wp_mono; [apply get_location_spec|];
      cbv beta; intros [?|?] ? ? (? & ? & ?)
  | |- wp (disable_user _ _ _) _ _ =>
      eapply wp_mono; [apply disable_user_spec|];
      cbv beta; intros [[|]|?] ? ? (? & (? & -> & ? & ?) & ?)
  | |- wp (_log_security_action _ _ _ _) _ _ =>
      eapply wp_mono; [apply log_security_action_spec|];
      cbv beta; intros [[]|?] ? ? (? & (? & ? & ? & -> & ?) & ?)
  | |- wp (_check_login_abnormality ?mon ?u ?p) ?st _ =>
      let H := fresh "Hcheck" in
      pose proof (check_login_abnormality_spec mon u p st) as H;
      unfold wp in H |- *; unfold res, final, emitted in H |- *;
      destruct (_check_login_abnormality mon u p st) as [[[[]|?] ?] ?] eqn:?;
      simpl in H |- *; destruct H as (? & ? & ? & ?)
  end.

(** ** Session start *)

Section Start.

Context {W : World} (mon : EmbyMonitor).

Implicit Types st : state W.

Lemma escapes_not_Exception e : escapes W e -> is_Exception e = false.
Proof. by intros []. Qed.

Lemma escapes_not_KeyError e : escapes W e -> is_KeyError e = false.
Proof. intros [He _]. by destruct e. Qed.

(** The three ways [_record_session_start] can go: nothing is persisted;
    the start record is refused by the database; the session is recorded,
    entered in the map and checked. *)
Lemma record_session_start_spec s st :
  wp (_record_session_start mon s) st (fun r st' evs =>
    (forall e, r = Raise e -> escapes W e) /\
    ((active_sessions st' = active_sessions st /\ quiet evs)
     \/ (exists d e pre tail,
           evs = pre ++ record_session_start_call d (Raise e) :: tail /\
           quiet pre /\
           session_Id s = Some (session_id d) /\
           session_UserId s = Some (user_id d) /\
           in_whitelist mon (username d) = false /\
           active_sessions st' = active_sessions st /\
           (if is_Exception e
            then r = Ok tt /\
                 tail = [Print (if is_KeyError e then msg_missing_field e
                                else msg_record_failed e)]
            else r = Raise e /\ tail = []))
     \/ (exists d pre post st1,
           evs = pre ++ record_session_start_call d (Ok tt)
                     :: Print (msg_session_started (username d) (device d)
                                 (ip d) (location d) (media d))
                     :: post /\
           quiet pre /\
           session_Id s = Some (session_id d) /\
           session_UserId s = Some (user_id d) /\
           ip d = PyStr.split_head ":"
                    (get_default (session_RemoteEndPoint s) "") /\
           in_whitelist mon (username d) = false /\
           active_sessions st1 = <[session_id d := d]> (active_sessions st) /\
           _check_login_abnormality mon (user_id d) (ip d) st1 = (r, st', post)))).
Proof.
  unfold _record_session_start.
  wp_steps.
  all: try (exfalso;
            match goal with
            | H : forall e, Raise ?x = Raise e -> escapes W e |- _ =>
                specialize (H _ eq_refl);
                pose proof (escapes_not_Exception _ H);
                pose proof (escapes_not_KeyError _ H); congruence
            end).
  all: (split; [by leaf|]).
  all: simpl in *; rewrite <- ?app_assoc; simpl.
  all: repeat match goal with u : unit |- _ => destruct u end.
  all: try match goal with
           | H : is_KeyError ?e = true |- _ =>
               assert (is_Exception e = true) by (by destruct e)
           end.
  all: try (left; split; [congruence | unfold quiet in *; by forall_events]).
  all: try (right; left;
            lazymatch goal with
            | |- context [?l ++ record_session_start_call ?d0 (Raise ?e0) :: ?tl] =>
                lazymatch goal with
                | |- context [?a :: ?b :: l ++ _] =>
                    exists d0, e0, (a :: b :: l), tl
                end
            end;
            split; [reflexivity|]; simpl;
            repeat split; try done; try congruence;
            try (unfold quiet in *; by forall_events);
            repeat match goal with
                   | H : ?b = _ |- context [if ?b then _ else _] => rewrite H
                   end; done).
  all: right; right;
       lazymatch goal with
       | |- context [?l ++ record_session_start_call ?d0 (Ok tt) :: _ :: ?post0] =>
           lazymatch goal with
           | |- context [?a :: ?b :: l ++ _] =>
               exists d0, (a :: b :: l), post0
           end
       end;
       eexists; split; [reflexivity|]; simpl;
       repeat split; try done; try congruence;
       try (unfold quiet in *; by forall_events).
  all: simpl; congruence.
Qed.

End Start.

(** ** Session end *)

Section Finish.

Context {W : World}.

Implicit Types st : state W.

(** [_record_session_end]: an id that is not in the map is reported and
    nothing else happens; otherwise the end is persisted and, only when the
    database accepted it, the entry is deleted. *)
Lemma record_session_end_spec sid st :
  wp (_record_session_end sid) st (fun r st' evs =>
    (forall e, r = Raise e -> escapes W e) /\
    match active_sessions st !! sid with
    | None => r = Ok tt /\ st' = st /\ evs = [Print (msg_session_gone sid)]
    | Some d =>
        exists t r' tail,
          let dur := Z.quot (t - start_time d) 1000000 in
          evs = record_session_end_call sid t dur r' :: tail /\
          match r' with
          | Ok _ =>
              r = Ok tt /\
              active_sessions st' = delete sid (active_sessions st) /\
              tail = [Print (msg_session_ended (username d) dur)]
          | Raise e =>
              active_sessions st' = active_sessions st /\
              if is_Exception e
              then r = Ok tt /\
                   tail = [Print (if is_KeyError e then msg_session_gone sid
                                  else msg_end_failed e)]
              else r = Raise e /\ tail = []
          end
    end).
Proof.
  unfold _record_session_end.
  wp_steps; (split; [by leaf|]); simpl in *.
  all: repeat match goal with H : ?x = _ |- context [match ?x with _ => _ end] =>
                rewrite H end.
  all: try congruence.
  all: try match goal with
           | H : is_KeyError ?e = true |- _ =>
               assert (is_Exception e = true) by (by destruct e)
           end.
  all: try (do 3 eexists; split; [reflexivity|]; simpl;
            repeat match goal with
                   | H : ?b = _ |- context [if ?b then _ else _] => rewrite H
                   end; by repeat split).
  by destruct st.
Qed.

End Finish.

(** ** One tick keeps an invariant of the map *)

Section Tick.

Context {W : World} (mon : EmbyMonitor).

Implicit Types st : state W.

(** Any property of the map that survives the entry of a record of a name
    off the whitelist under its own id, and the deletion of an entry. *)
Context (I : gmap string session_data -> Prop).
Context (I_insert : forall m d,
           I m -> in_whitelist mon (username d) = false ->
           I (<[session_id d := d]> m)).
Context (I_delete : forall m sid, I m -> I (delete sid m)).

Abbreviation kept := (triple (W:=W) I (whitelist_safe mon) (escapes W)).

Lemma record_session_start_kept s : kept (_record_session_start mon s).
Proof.
  intros st HI. eapply wp_mono; [apply record_session_start_spec|].
  cbv beta. intros r st' evs (Hesc & Hcases).
  destruct Hcases as [(Hm & Hq)|[(d & e & pre & tail & -> & Hq & _ & _ & Hw & Hm & Ht)
                                |(d & pre & post & st1 & -> & Hq & _ & _ & _ & Hw & Hm & Hc)]].
  - rewrite Hm. split; [done|]. split; [by apply quiet_safe|done].
  - rewrite Hm. split; [done|]. split; [|done].
    destruct (is_Exception e); destruct Ht as [_ ->]; forall_events.
  - pose proof (check_login_abnormality_spec mon (user_id d) (ip d) st1) as Hs.
    unfold wp, res, final, emitted in Hs. rewrite Hc in Hs. simpl in Hs.
    destruct Hs as (Hm' & Hsafe & _ & _).
    rewrite Hm', Hm. split; [by apply I_insert|].
    split; [forall_events|done].
Qed.

Lemma record_session_end_kept sid : kept (_record_session_end sid).
Proof.
  intros st HI. eapply wp_mono; [apply record_session_end_spec|].
  cbv beta. intros r st' evs (Hesc & Hcases).
  destruct (active_sessions st !! sid) as [d|].
  - destruct Hcases as (t & r' & tail & -> & Hr). destruct r' as [[]|e].
    + destruct Hr as (_ & -> & ->). split; [by apply I_delete|].
      split; [forall_events|done].
    + destruct Hr as (-> & Hr). split; [done|]. split; [|done].
      destruct (is_Exception e); destruct Hr as [_ ->]; forall_events.
  - destruct Hcases as (_ & -> & ->). split; [done|]. split; [forall_events|done].
Qed.

(** A loop whose body keeps [I], [G] and [E] keeps them. *)
Lemma triple_for_each {A} G E (xs : list A) (body : A -> M W unit) :
  (forall x, triple I G E (body x)) -> triple I G E (for_each xs body).
Proof.
  intros Hbody. induction xs as [|x xs IH]; intros st HI; simpl.
  - apply wp_ret. by repeat split.
  - apply wp_bind. eapply wp_mono; [by apply Hbody|]. cbv beta.
    intros [[]|e] st1 evs1 (HI1 & HG1 & HE1); [|done].
    eapply wp_mono; [by apply IH|]. cbv beta.
    intros r st2 evs2 (HI2 & HG2 & HE2). split; [done|].
    split; [by apply Forall_app|done].
Qed.

Lemma detect_new_sessions_kept current : kept (_detect_new_sessions mon current).
Proof.
  apply triple_for_each. intros [k s] st HI. simpl.
  wp_steps; [by leaf|].
  by apply record_session_start_kept.
Qed.

Lemma detect_ended_sessions_kept current : kept (_detect_ended_sessions current).
Proof.
  intros st HI. unfold _detect_ended_sessions. wp_steps.
  eapply wp_mono;
    [by apply (triple_for_each _ _ _ _ record_session_end_kept)|].
  cbv beta. by intros r st' evs (? & ? & ?).
Qed.

(** A tick keeps the invariant and the events safe, and no [Exception]
    leaves it. *)
Lemma process_sessions_kept : kept (process_sessions mon).
Proof.
  intros st HI. unfold process_sessions. wp_steps.
  - eapply wp_mono; [by apply detect_new_sessions_kept|]. cbv beta.
    intros [[]|e] st1 evs1 (HI1 & HG1 & HE1).
    + eapply wp_mono; [by apply detect_ended_sessions_kept|]. cbv beta.
      intros [[]|e] st2 evs2 (HI2 & HG2 & HE2).
      * split; [done|]. split; [forall_events|done].
      * pose proof (escapes_not_Exception _ (HE2 _ eq_refl)) as Hne.
        unfold except_Exception. rewrite Hne.
        split; [done|]. split; [forall_events|]. by intros ? [= <-]; eauto.
    + pose proof (escapes_not_Exception _ (HE1 _ eq_refl)) as Hne.
      unfold except_Exception. rewrite Hne.
      split; [done|]. split; [forall_events|]. by intros ? [= <-]; eauto.
  - split; [done|]. split; [forall_events|done].
  - split; [done|]. split; [forall_events|]. leaf.
Qed.

(** The body of the loop: as a tick, but the sleep may raise anything. *)
Lemma loop_body_kept :
  triple (W:=W) I (whitelist_safe mon) (fun _ => True) (loop_body mon).
Proof.
  intros st HI. unfold loop_body. wp_steps.
  eapply wp_mono; [by apply process_sessions_kept|]. cbv beta.
  intros [[]|e] st1 evs1 (HI1 & HG1 & HE1); [|done].
  wp_steps; (split; [done|]); (split; [forall_events|done]).
Qed.

Lemma while_True_kept fuel st :
  I (active_sessions st) ->
  I (active_sessions (while_True mon fuel st).1.2) /\
  Forall (whitelist_safe mon) (while_True mon fuel st).2.
Proof.
  revert st. induction fuel as [|n IH]; intros st HI; simpl; [by split|].
  pose proof (loop_body_kept st HI) as Hb.
  unfold wp, res, final, emitted in Hb.
  destruct (loop_body mon st) as [[[[]|e] st1] evs1]; simpl in *;
    destruct Hb as (HI1 & HG1 & _); [|by split].
  specialize (IH st1 HI1).
  destruct (while_True mon n st1) as [[r st2] evs2]; simpl in *.
  destruct IH. split; [done|]. by apply Forall_app.
Qed.

Lemma run_kept fuel st :
  I (active_sessions st) ->
  I (active_sessions (run mon fuel st).1.2) /\
  Forall (whitelist_safe mon) (run mon fuel st).2.
Proof.
  intros HI. pose proof (while_True_kept fuel st HI) as Hw. unfold run.
  destruct (while_True mon fuel st) as [[[e|] st1] evs]; simpl in *;
    destruct Hw as [? ?].
  - destruct (is_KeyboardInterrupt e); [|destruct (is_Exception e)]; simpl;
      (split; [done|forall_events]).
  - split; [done|forall_events].
Qed.

End Tick.

(** ** Membership in the events of a path *)

Lemma quiet_elem ev evs : quiet evs -> ev ∈ evs -> is_quiet ev = true.
Proof. intros Hq Hin. by apply (proj1 (Forall_forall _ _) Hq). Qed.

Lemma aftermath_elem ev evs :
  Forall (fun ev => is_aftermath ev = true) evs -> ev ∈ evs ->
  is_aftermath ev = true.
Proof. intros Hq Hin. by apply (proj1 (Forall_forall _ _) Hq). Qed.

Ltac elim_in H :=
  first
    [ apply elem_of_nil in H; destruct H
    | apply elem_of_app in H as [H|H]; [elim_in H | elim_in H]
    | apply elem_of_cons in H as [H|H]; [try discriminate H | elim_in H]
    | match type of H with
      | _ ∈ ?l =>
          match goal with
          | Hq : quiet l |- _ =>
              apply (quiet_elem _ _ Hq) in H; discriminate H
          | Hq : Forall (fun ev => is_aftermath ev = true) l |- _ =>
              apply (aftermath_elem _ _ Hq) in H; discriminate H
          end
      end
    | idtac ].

(** Membership of an event in a list built from explicit events. *)
Ltac in_list :=
  repeat first [rewrite elem_of_app | rewrite elem_of_cons];
  eauto 20.

(** * The claims *)

Section Claims.

Context {W : World} (mon : EmbyMonitor).

Implicit Types st : state W.

Lemma detect_new_sessions_cons k s rest :
  _detect_new_sessions (W:=W) mon ((k, s) :: rest) =
  bind (bind get_sessions
          (fun m => if bool_decide (is_Some (m !! k)) then ret tt
                    else _record_session_start mon s))
       (fun _ => _detect_new_sessions mon rest).
Proof. reflexivity. Qed.

(** C1. When [_record_session_start] records a session (the start record
    [d] is accepted by the database), let [n] be the number of distinct
    addresses other than [ip d] among the sessions of [user_id d] in the map,
    the new entry included. An alert is triggered in that call if and only
    if alerts are enabled and [n >= alert_threshold - 1]; it is triggered
    for that user and address, and the session count it is given is
    [n + 1]. *)
Theorem alert_iff_threshold_reached s st d :
  record_session_start_call d (Ok tt) ∈ emitted (_record_session_start mon s st) ->
  let n := Z.of_nat (distinctOtherIPs (<[session_id d := d]> (active_sessions st))
                       (user_id d) (ip d)) in
  forall uid addr count,
    trigger_alert_call uid addr count ∈ emitted (_record_session_start mon s st)
    <->
    alerts_enabled mon = true /\ alert_threshold mon - 1 <= n /\
    uid = user_id d /\ addr = ip d /\ count = n + 1.
Proof.
  pose proof (record_session_start_spec mon s st) as Hs.
  unfold wp in Hs. revert Hs.
  generalize (res (_record_session_start mon s st))
             (final (_record_session_start mon s st))
             (emitted (_record_session_start mon s st)).
  intros r st' evs (_ & Hcases) Hin n uid addr count.
  destruct Hcases as [(Hm & Hq)|[(d' & e & pre & tail & -> & Hq & _ & _ & Hw & Hm & Ht)
                                |(d' & pre & post & st1 & -> & Hq & _ & _ & _ & Hw & Hm & Hc)]].
  - elim_in Hin.
  - destruct (is_Exception e); destruct Ht as [_ ->]; elim_in Hin.
  - pose proof (check_login_abnormality_spec mon (user_id d') (ip d') st1) as Hs.
    unfold wp, res, final, emitted in Hs. rewrite Hc in Hs. simpl in Hs.
    destruct Hs as (_ & _ & Hpost & _). rewrite Hm in Hpost.
    assert (d' = d) as ->.
    { destruct (_ && _); [destruct Hpost as (body & -> & Hb)|subst post];
        elim_in Hin; congruence. }
    fold n in Hpost. split.
    + intros Ht. destruct (alerts_enabled mon); simpl in Hpost;
        [destruct (bool_decide _) eqn:Hthr|].
      * destruct Hpost as (body & -> & Hb). elim_in Ht.
        apply bool_decide_eq_true_1 in Hthr. by simplify_eq.
      * subst post. elim_in Ht.
      * subst post. elim_in Ht.
    + intros (Hen & Hthr & -> & -> & ->). rewrite Hen in Hpost.
      rewrite bool_decide_eq_true_2 in Hpost by done. simpl in Hpost.
      destruct Hpost as (body & -> & Hb).
      apply elem_of_app. right. do 2 apply list_elem_of_further.
      apply list_elem_of_here.
Qed.

(** C6, as amended. With an alert threshold of at least 2, a user all of
    whose sessions in the map come from the one address [p] triggers no
    alert: the check emits nothing and changes nothing, whether alerts are
    enabled or not. *)
Theorem same_ip_never_alerts u p st :
  2 <= alert_threshold mon ->
  map_Forall (fun _ d => user_id d = u -> ip d = p) (active_sessions st) ->
  _check_login_abnormality mon u p st = (Ok tt, st, []).
Proof.
  intros Hthr Hall. rewrite check_login_abnormality_unfold. cbv zeta.
  rewrite <- existing_ips_size, existing_ips_same_ip by done.
  rewrite size_empty. rewrite bool_decide_eq_false_2 by (simpl; lia).
  by rewrite andb_false_r.
Qed.

(** C4. When the fetch of the active sessions raises, the tick changes
    nothing in the map and emits, after the failed call, at most the line
    that reports it: no start record, no end record. An [Exception] is
    caught by the tick. *)
Theorem failed_fetch_leaves_map st e en' :
  emby_get_active_sessions W (env st) = (Raise e, en') ->
  active_sessions (final (process_sessions mon st)) = active_sessions st /\
  emitted (process_sessions mon st) =
    get_active_sessions_call (Raise e)
    :: (if is_Exception e then [Print (msg_update_failed e)] else []) /\
  Forall (fun ev => is_start_record ev = false /\ is_end_record ev = false)
         (emitted (process_sessions mon st)) /\
  (is_Exception e = true -> res (process_sessions mon st) = Ok tt).
Proof.
  intros Hf.
  unfold process_sessions, try_except, bind, call, except_Exception, print.
  rewrite Hf. destruct (is_Exception e); simpl; repeat split;
    by repeat constructor.
Qed.

(** C9. A fetched session that lacks its id or its user id is skipped: in a
    world that raises nothing but [Exception]s, [_record_session_start]
    returns normally, leaves the map as it was and persists no start record,
    and [_detect_new_sessions] goes on with the sessions that follow. *)
Theorem missing_field_skips_session s st :
  calm W ->
  session_Id s = None \/ session_UserId s = None ->
  res (_record_session_start mon s st) = Ok tt /\
  active_sessions (final (_record_session_start mon s st)) = active_sessions st /\
  Forall (fun ev => is_start_record ev = false)
         (emitted (_record_session_start mon s st)) /\
  forall k rest,
    active_sessions st !! k = None ->
    _detect_new_sessions mon ((k, s) :: rest) st =
    (res (_detect_new_sessions mon rest (final (_record_session_start mon s st))),
     final (_detect_new_sessions mon rest (final (_record_session_start mon s st))),
     emitted (_record_session_start mon s st)
       ++ emitted (_detect_new_sessions mon rest
                     (final (_record_session_start mon s st)))).
Proof.
  intros Hcalm Hmiss.
  pose proof (record_session_start_spec mon s st) as Hs. unfold wp in Hs.
  destruct Hs as (Hesc & Hcases).
  assert (res (_record_session_start mon s st) = Ok tt) as Hres.
  { destruct (res _) as [[]|e]; [done|]. by destruct (Hesc e eq_refl). }
  destruct Hcases as [(Hm & Hq)|[(d & e & pre & tail & _ & _ & Hi & Hu & _)
                                |(d & pre & post & st1 & _ & _ & Hi & Hu & _)]];
    [|destruct Hmiss; congruence..].
  split; [done|]. split; [done|]. split.
  { eapply Forall_impl; [exact Hq|]. by intros []. }
  intros k rest Hk.
  rewrite detect_new_sessions_cons. simpl.
  unfold bind at 1 2, get_sessions. simpl. rewrite Hk.
  rewrite bool_decide_eq_false_2 by (by intros []).
  unfold res, final, emitted in *.
  destruct (_record_session_start mon s st) as [[r st1] evs1]; simpl in *.
  subst r. by destruct (_detect_new_sessions mon rest st1) as [[r2 st2] evs2].
Qed.



(** C10. The key of every entry of the map is the id in its record, and
    this is kept by a tick and by any number of passes of the loop of [run],
    from the empty map on. The map is changed in two ways only:
    [_record_session_start] enters a record under its own id,
    [_record_session_end] deletes the entry of the id it is given. *)
Theorem keys_match_preserved :
  (forall st, keys_match (active_sessions st) ->
     keys_match (active_sessions (final (process_sessions mon st)))) /\
  (forall fuel st, keys_match (active_sessions st) ->
     keys_match (active_sessions (run mon fuel st).1.2)) /\
  (forall fuel (e0 : Env W),
     keys_match (active_sessions (run mon fuel (initial_state e0)).1.2)) /\
  (forall s st,
     active_sessions (final (_record_session_start mon s st)) = active_sessions st
     \/ exists d,
          active_sessions (final (_record_session_start mon s st)) =
          <[session_id d := d]> (active_sessions st)) /\
  (forall sid st,
     active_sessions (final (_record_session_end sid st)) = active_sessions st
     \/ active_sessions (final (_record_session_end sid st)) =
        delete sid (active_sessions st)).
Proof.
  assert (forall m d, keys_match m -> in_whitelist mon (username d) = false ->
            keys_match (<[session_id d := d]> m)) as Hins.
  { intros m d Hk _ k d' Hl.
    apply lookup_insert_Some in Hl as [[<- <-]|[_ Hl]]; eauto. }
  assert (forall m sid, keys_match m -> keys_match (delete sid m)) as Hdel.
  { intros m sid Hk k d' Hl. apply lookup_delete_Some in Hl as [_ Hl]; eauto. }
  split; [|split; [|split; [|split]]].
  - intros st HI.
    by destruct (process_sessions_kept mon keys_match Hins Hdel st HI).
  - intros fuel st HI.
    by destruct (run_kept mon keys_match Hins Hdel fuel st HI).
  - intros fuel e0.
    by destruct (run_kept mon keys_match Hins Hdel fuel (initial_state e0)).
  - intros s st. pose proof (record_session_start_spec mon s st) as Hs.
    unfold wp in Hs. destruct Hs as (_ & Hcases).
    destruct Hcases as [(Hm & _)|[(d & e & pre & tail & _ & _ & _ & _ & _ & Hm & _)
                                 |(d & pre & post & st1 & _ & _ & _ & _ & _ & _ & Hm & Hc)]];
      [by left..|].
    right. exists d.
    pose proof (check_login_abnormality_spec mon (user_id d) (ip d) st1) as Hs.
    unfold wp in Hs. rewrite Hc in Hs. destruct Hs as (Hm' & _).
    unfold final in *. simpl in Hm'. congruence.
  - intros sid st. pose proof (record_session_end_spec sid st) as Hs.
    unfold wp in Hs. destruct Hs as (_ & Hs).
    destruct (active_sessions st !! sid) as [d|].
    + destruct Hs as (t & [[]|e] & tail & _ & Hr).
      * right. by destruct Hr as (_ & -> & _).
      * left. by destruct Hr as (-> & _).
    + left. by destruct Hs as (_ & -> & _).
Qed.

(** The whitelist of a monitor built by [__init__]: a name passes the test
    [username.lower() in self.whitelist] when its lowered form is the
    lowered form of a configured entry with the blanks around it cut off;
    entries made of blanks only are dropped. *)
Lemma in_whitelist_init py sec cfg name :
  in_whitelist (EmbyMonitor_init py sec cfg) name = true <->
  exists entry,
    entry ∈ security_whitelist cfg /\
    PyStr.truthy (str_strip py entry) = true /\
    str_lower py (str_strip py entry) = str_lower py name.
Proof.
  unfold in_whitelist, EmbyMonitor_init. simpl.
  rewrite bool_decide_eq_true, list_elem_of_In, in_map_iff.
  split.
  - intros (entry & Heq & Hin). exists entry.
    apply list_elem_of_In, list_elem_of_filter in Hin as [Ht Hin]. eauto.
  - intros (entry & Hin & Ht & Heq). exists entry. split; [done|].
    apply list_elem_of_In, list_elem_of_filter. eauto.
Qed.

(** C3. A session whose user name, trimmed and lowered, is in the whitelist
    of the monitor: at discovery [_record_session_start] asks for the name,
    prints that the user is skipped and stops, the map untouched; inside
    [_trigger_alert] the name is asked for again and the call stops before
    anything is disabled, logged or notified. Over any number of passes of
    the loop, no record of the map and no start record, security-log entry
    or disabling bears a whitelisted name, and the webhook notifier is
    never called. For a monitor built by [__init__], with the [strip] and
    [lower] of the interpreter whatever they do beyond ASCII, a name is
    whitelisted exactly when, trimmed and lowered, it is a configured entry
    trimmed and lowered: every variant of an entry in case and in the blanks
    around it is skipped at discovery and protected inside
    [_trigger_alert]. *)
Theorem whitelisted_user_is_invisible :
  (forall s st uid info en',
     session_UserId s = Some uid ->
     emby_get_user_info W uid (env st) = (Ok info, en') ->
     in_whitelist mon (str_strip (python mon) (get_default (user_Name info) "未知用户")) = true ->
     _record_session_start mon s st =
     (Ok tt, {| active_sessions := active_sessions st; env := en' |},
      [get_user_info_call uid (Ok info);
       Print (msg_whitelist_skip
                (str_strip (python mon) (get_default (user_Name info) "未知用户")))])) /\
  (forall uid addr count st info en',
     emby_get_user_info W uid (env st) = (Ok info, en') ->
     in_whitelist mon (str_strip (python mon) (get_default (user_Name info) "未知用户")) = true ->
     _trigger_alert mon uid addr count st =
     (Ok tt, {| active_sessions := active_sessions st; env := en' |},
      [trigger_alert_call uid addr count;
       get_user_info_call uid (Ok info);
       Print (msg_whitelist_protected
                (str_strip (python mon) (get_default (user_Name info) "未知用户")))])) /\
  (forall fuel st,
     whitelist_free mon (active_sessions st) ->
     whitelist_free mon (active_sessions (run mon fuel st).1.2) /\
     Forall (whitelist_safe mon) (run mon fuel st).2) /\
  (forall fuel (e0 : Env W),
     whitelist_free mon (active_sessions (run mon fuel (initial_state e0)).1.2) /\
     Forall (whitelist_safe mon) (run mon fuel (initial_state e0)).2) /\
  (forall py sec cfg,
     mon = EmbyMonitor_init py sec cfg ->
     (forall raw,
        in_whitelist mon (str_strip (python mon) raw) = true <->
        exists entry,
          entry ∈ security_whitelist cfg /\
          PyStr.truthy (str_strip py entry) = true /\
          str_lower py (str_strip py raw) = str_lower py (str_strip py entry)) /\
     (forall entry info,
        entry ∈ security_whitelist cfg ->
        PyStr.truthy (str_strip py entry) = true ->
        str_lower py (str_strip py (get_default (user_Name info) "未知用户")) =
        str_lower py (str_strip py entry) ->
        (forall s st uid en',
           session_UserId s = Some uid ->
           emby_get_user_info W uid (env st) = (Ok info, en') ->
           _record_session_start mon s st =
           (Ok tt, {| active_sessions := active_sessions st; env := en' |},
            [get_user_info_call uid (Ok info);
             Print (msg_whitelist_skip
                      (str_strip py (get_default (user_Name info) "未知用户")))])) /\
        (forall uid addr count st en',
           emby_get_user_info W uid (env st) = (Ok info, en') ->
           _trigger_alert mon uid addr count st =
           (Ok tt, {| active_sessions := active_sessions st; env := en' |},
            [trigger_alert_call uid addr count;
             get_user_info_call uid (Ok info);
             Print (msg_whitelist_protected
                      (str_strip py (get_default (user_Name info) "未知用户")))])))).
Proof.
  assert (forall fuel st,
            whitelist_free mon (active_sessions st) ->
            whitelist_free mon (active_sessions (run mon fuel st).1.2) /\
            Forall (whitelist_safe mon) (run mon fuel st).2) as Hrun.
  { intros fuel st HI. apply run_kept; [| |done].
    - intros m d Hm Hd k d' Hl.
      apply lookup_insert_Some in Hl as [[<- <-]|[_ Hl]]; eauto.
    - intros m sid Hm k d' Hl.
      apply lookup_delete_Some in Hl as [_ Hl]; eauto. }
  assert (forall s st uid info en',
            session_UserId s = Some uid ->
            emby_get_user_info W uid (env st) = (Ok info, en') ->
            in_whitelist mon (str_strip (python mon) (get_default (user_Name info) "未知用户")) = true ->
            _record_session_start mon s st =
            (Ok tt, {| active_sessions := active_sessions st; env := en' |},
             [get_user_info_call uid (Ok info);
              Print (msg_whitelist_skip
                       (str_strip (python mon) (get_default (user_Name info) "未知用户")))]))
    as Hstart.
  { intros s st uid info en' Hu Hc Hw.
    unfold _record_session_start, try_except, bind, subscript, call, ret, print.
    rewrite Hu. simpl. rewrite Hc. simpl. by rewrite Hw. }
  assert (forall uid addr count st info en',
            emby_get_user_info W uid (env st) = (Ok info, en') ->
            in_whitelist mon (str_strip (python mon) (get_default (user_Name info) "未知用户")) = true ->
            _trigger_alert mon uid addr count st =
            (Ok tt, {| active_sessions := active_sessions st; env := en' |},
             [trigger_alert_call uid addr count;
              get_user_info_call uid (Ok info);
              Print (msg_whitelist_protected
                       (str_strip (python mon) (get_default (user_Name info) "未知用户")))]))
    as Halert.
  { intros uid addr count st info en' Hc Hw.
    unfold _trigger_alert, try_except, bind, mark, call, print.
    simpl. rewrite Hc. simpl. by rewrite Hw. }
  split; [exact Hstart|]. split; [exact Halert|]. split; [exact Hrun|].
  split.
  - intros fuel e0. apply Hrun. intros k d Hl. simpl in Hl.
    by rewrite lookup_empty in Hl.
  - intros py sec cfg Hmon.
    assert (python mon = py) as Hpy by (by rewrite Hmon).
    assert (forall raw,
              in_whitelist mon (str_strip (python mon) raw) = true <->
              exists entry,
                entry ∈ security_whitelist cfg /\
                PyStr.truthy (str_strip py entry) = true /\
                str_lower py (str_strip py raw) =
                str_lower py (str_strip py entry)) as Hiff.
    { intros raw. rewrite Hpy. rewrite Hmon at 1. rewrite in_whitelist_init.
      split; intros (entry & ? & ? & ?); exists entry; eauto. }
    split; [exact Hiff|].
    intros entry info Hin Ht Heq.
    assert (in_whitelist mon
              (str_strip (python mon) (get_default (user_Name info) "未知用户"))
            = true) as Hw by (apply Hiff; eauto).
    rewrite <- Hpy. split.
    + intros s st uid en' Hu Hc. by apply Hstart.
    + intros uid addr count st en' Hc. by apply Halert.
Qed.

(** What [disable_user] emits: the line that announces it, the POST to the
    policy of the user, a line on the outcome, and its own answer, which
    follows the answer to the POST. *)
Lemma disable_user_trace sec uid name st :
  wp (disable_user sec uid name) st (fun r st' evs =>
    active_sessions st' = active_sessions st /\
    exists answer tail,
      evs = Print (msg_disabling (if PyStr.truthy name then name else uid) uid)
            :: session_post_call (policy_url sec uid) true answer
            :: tail ++ [disable_user_call uid name r] /\
      quiet tail /\
      r = match answer with
          | Ok status =>
              Ok (bool_decide (status = 200) || bool_decide (status = 204))
          | Raise e => if is_Exception e then Ok false else Raise e
          end).
Proof.
  unfold disable_user, policy_url, quiet.
  wp_steps; (split; [done|]).
  all: do 2 eexists; split; [reflexivity|].
  all: simpl in *; split; [by repeat constructor|].
  all: repeat match goal with H : _ = _ |- _ => rewrite H end; done.
Qed.

Lemma quiet_untouched evs :
  quiet evs ->
  Forall (fun ev => is_disable ev = false /\ is_security_log ev = false) evs.
Proof. intros H. eapply Forall_impl; [exact H|]. by intros []. Qed.

Lemma quiet_unlogged evs :
  quiet evs -> Forall (fun ev => is_security_log ev = false) evs.
Proof. intros H. eapply Forall_impl; [exact H|]. by intros []. Qed.

(** C5, as amended. In [_trigger_alert] for a user that is not whitelisted
    the alert lines are printed. With auto-disable on, [disable_user] is
    then called: it posts to the policy of the user and answers [True]
    exactly when the status is 200 or 204; on [True] the security log is
    written with action DISABLE for that user, address and count, on
    [False] it is not written. With auto-disable off nothing is disabled
    and nothing is logged. The webhook notifier is not called in any
    case. *)
Theorem alert_actions uid addr count st info en' :
  emby_get_user_info W uid (env st) = (Ok info, en') ->
  in_whitelist mon (str_strip (python mon) (get_default (user_Name info) "未知用户")) = false ->
  wp (_trigger_alert mon uid addr count) st (fun r _ evs =>
    let name := str_strip (python mon) (get_default (user_Name info) "未知用户") in
    (r = Ok tt \/ (exists u n r', disable_user_call u n r' ∈ evs) ->
     exists t loc, Print (msg_alert t name addr loc count) ∈ evs) /\
    (auto_disable mon = true -> r = Ok tt ->
     exists answer b,
       session_post_call (policy_url (security mon) uid) true answer ∈ evs /\
       disable_user_call uid name (Ok b) ∈ evs /\
       (b = true <->
        exists status, answer = Ok status /\ (status = 200 \/ status = 204)) /\
       (b = true ->
        exists t r',
          log_security_event_call
            {| log_timestamp := t; log_user_id := uid; log_username := name;
               log_trigger_ip := addr; log_active_sessions := count;
               log_action := "DISABLE" |} r' ∈ evs) /\
       (b = false -> Forall (fun ev => is_security_log ev = false) evs)) /\
    (auto_disable mon = false ->
     Forall (fun ev => is_disable ev = false /\ is_security_log ev = false)
            evs) /\
    (disable_user_call uid name (Ok true) ∈ evs ->
     exists t r',
       log_security_event_call
         {| log_timestamp := t; log_user_id := uid; log_username := name;
            log_trigger_ip := addr; log_active_sessions := count;
            log_action := "DISABLE" |} r' ∈ evs) /\
    (forall d r', log_security_event_call d r' ∈ evs ->
       auto_disable mon = true /\ disable_user_call uid name (Ok true) ∈ evs) /\
    (forall u n r', disable_user_call u n r' ∈ evs -> auto_disable mon = true) /\
    Forall (fun ev => is_webhook ev = false) evs).
Proof.
  intros Hc Hw. unfold _trigger_alert.
  repeat first
    [ lazymatch goal with
      | |- wp (disable_user _ _ _) _ _ =>
          eapply wp_mono; [apply disable_user_trace|];
          cbv beta; intros ? ? ? (? & answer & tail & -> & Htail & ->);
          destruct answer as [status|?];
          [ destruct (bool_decide (status = 200) || bool_decide (status = 204))
              eqn:Hstatus
          | destruct (is_Exception _) eqn:? ]
      end
    | wp_step ]; cbv zeta.
  all: match goal with
       | H : emby_get_user_info _ _ _ = (?r, _), H' : emby_get_user_info _ _ _ = (Ok ?i, _) |- _ =>
           assert (r = Ok i) by congruence
       end; simplify_eq.
  all: try match goal with
           | H : forall e, Raise ?x = Raise e -> escapes W e |- _ =>
               pose proof (escapes_not_Exception _ (H _ eq_refl)); congruence
           end.
  all: try congruence.
  all: repeat match goal with |- _ /\ _ => split end.
  all: lazymatch goal with
       | |- Forall (fun ev => is_webhook ev = false) _ =>
           apply Forall_forall; intros ev Hev; elim_in Hev; subst; try done;
           match goal with
           | Hq : quiet ?l, H : _ ∈ ?l |- _ =>
               apply (quiet_elem _ _ Hq) in H; by destruct ev
           end
       | |- _ = false -> Forall _ _ =>
           intros Hoff; first [discriminate Hoff | forall_events];
           eauto using quiet_untouched
       | |- _ = true -> _ = Ok tt -> _ =>
           intros Hon Hr; first [discriminate Hon | discriminate Hr | idtac]
       | |- disable_user_call _ _ _ ∈ _ -> _ =>
           intros Hin;
           first [ by (elim_in Hin; simplify_eq) | do 2 eexists; in_list ]
       | |- forall d r', log_security_event_call _ _ ∈ _ -> _ =>
           intros d r' Hin; elim_in Hin; simplify_eq; (split; [done | in_list])
       | |- forall u n r', disable_user_call _ _ _ ∈ _ -> _ =>
           intros u n r' Hin; elim_in Hin; by simplify_eq
       | |- _ \/ _ -> _ =>
           intros [Hr|(u & n & r' & Hin)];
           [ first [discriminate Hr | do 2 eexists; in_list]
           | elim_in Hin; simplify_eq; (do 2 eexists; in_list) ]
       end.
  all: match goal with
       | |- context [session_post_call ?u true ?ans
                     :: _ ++ [disable_user_call _ _ (Ok ?b)]] =>
           exists ans, b
       end.
  all: split; [in_list|]; split; [in_list|]; split; [|split].
  all: lazymatch goal with
       | |- _ <-> _ =>
           split;
           [ intros Hb;
             first
               [ discriminate Hb
               | eexists; (split; [reflexivity|]);
                 apply orb_true_iff in Hstatus as [Hs|Hs];
                 apply bool_decide_eq_true_1 in Hs; auto ]
           | intros (s' & Hs & Hcode);
             first
               [ discriminate Hs
               | done
               | injection Hs as <-;
                 apply orb_false_iff in Hstatus as [H200 H204];
                 apply bool_decide_eq_false_1 in H200, H204;
                 by destruct Hcode ] ]
       | |- _ = true -> exists t r', _ =>
           intros Hb; first [discriminate Hb | do 2 eexists; in_list]
       | |- _ = false -> Forall _ _ =>
           intros Hb; first [discriminate Hb | forall_events];
           eauto using quiet_unlogged
       end.
Qed.






End Claims.

(** * The claims on concrete runs *)

Ltac compute_in :=
  vm_compute;
  repeat first [apply list_elem_of_here | apply list_elem_of_further].

Lemma scripted_quiet_calm fetch : calm (scripted (quiet_script fetch)).
Proof. intros e He. inversion He; simpl in *; by simplify_eq. Defined.

(** S2 from a second address, threshold 2: the alert is triggered with
    session count 2. *)
Lemma alert_iff_threshold_reached_witness :
  trigger_alert_call "alice" "2.2.2.2" 2 ∈ emitted second_address_start.
Proof.
  apply (alert_iff_threshold_reached default_monitor alice_s2
           (alice_state _ [alice_data "S1" "1.1.1.1" 0])
           (alice_data "S2" "2.2.2.2" 10000000)).
  - compute_in.
  - vm_compute. repeat split; discriminate.
Defined.



(** Alice under a whitelist that spells her name [" ALICE "]. *)
Lemma whitelisted_user_witness :
  _record_session_start (W:=calm_world) guarded_monitor
    (mk_session "S1" "Alice" "1.1.1.1:5000") (scripted_start _) =
  (Ok tt, scripted_start _,
   [get_user_info_call "Alice" (Ok {| user_Name := Some "Alice" |});
    Print (msg_whitelist_skip "Alice")]).
Proof.
  refine (proj1 (proj2 (proj2 (proj2 (proj2 (proj2
            (whitelisted_user_is_invisible (W:=calm_world) guarded_monitor))))
            ascii_python
            (EmbySecurity_init "https://emby.example.com/")
            (mk_config 2 true true [" ALICE "]) eq_refl)
            " ALICE " {| user_Name := Some "Alice" |} _ eq_refl eq_refl)
            (mk_session "S1" "Alice" "1.1.1.1:5000") (scripted_start _)
            "Alice" 0%nat eq_refl eq_refl).
  apply list_elem_of_here.
Defined.

(** The server cannot be reached while S1 is active. *)
Lemma failed_fetch_witness :
  active_sessions
    (final (process_sessions default_monitor
              (alice_state unreachable_script [alice_data "S1" "1.1.1.1" 0])))
  = active_sessions (alice_state unreachable_script [alice_data "S1" "1.1.1.1" 0]).
Proof.
  apply (failed_fetch_leaves_map default_monitor
           (alice_state unreachable_script [alice_data "S1" "1.1.1.1" 0])
           (Exception "connection refused") 2%nat).
  reflexivity.
Defined.

(** C5, the claim as stated fails: the account of alice is disabled and the
    security log is written, and no call of the webhook notifier is among
    the events. *)
Lemma disable_success_sends_no_webhook :
  disable_user_call "alice" "alice" (Ok true) ∈ emitted disabling_alert /\
  log_security_event_call
    {| log_timestamp := 10000000; log_user_id := "alice";
       log_username := "alice"; log_trigger_ip := "2.2.2.2";
       log_active_sessions := 2; log_action := "DISABLE" |} (Ok tt)
    ∈ emitted disabling_alert /\
  Forall (fun ev => is_webhook ev = false) (emitted disabling_alert).
Proof.
  split; [compute_in|]. split; [compute_in|]. vm_compute. repeat constructor.
Qed.

Lemma alert_actions_witness :
  (exists answer b,
     session_post_call "https://emby.example.com/emby/Users/alice/Policy"
                       true answer ∈ emitted disabling_alert /\
     disable_user_call "alice" "alice" (Ok b) ∈ emitted disabling_alert /\
     (b = true <->
      exists status, answer = Ok status /\ (status = 200 \/ status = 204)) /\
     (b = true ->
      exists t r',
        log_security_event_call
          {| log_timestamp := t; log_user_id := "alice";
             log_username := "alice"; log_trigger_ip := "2.2.2.2";
             log_active_sessions := 2; log_action := "DISABLE" |} r'
        ∈ emitted disabling_alert) /\
     (b = false ->
      Forall (fun ev => is_security_log ev = false) (emitted disabling_alert)))
  /\ Forall (fun ev => is_webhook ev = false) (emitted disabling_alert).
Proof.
  pose proof (alert_actions (W:=calm_world) default_monitor "alice" "2.2.2.2" 2
                (alice_state _ [alice_data "S1" "1.1.1.1" 0;
                                alice_data "S2" "2.2.2.2" 0])
                {| user_Name := Some "alice" |} 1%nat eq_refl eq_refl) as H.
  unfold wp in H. destruct H as (_ & Hon & _ & _ & _ & _ & Hweb).
  split; [|exact Hweb].
  apply Hon; [reflexivity|by vm_compute].
Defined.

(** C6, the claim as stated fails: threshold 1, alerts enabled, one session
    of alice, hence one address; the first tick triggers an alert. *)
Lemma single_session_alerts_at_threshold_one :
  1 <= alert_threshold strict_monitor /\
  alerts_enabled strict_monitor = true /\
  active_sessions (final strict_first_tick)
    = {[ "S1" := alice_data "S1" "1.1.1.1" 10000000 ]} /\
  trigger_alert_call "alice" "1.1.1.1" 1 ∈ emitted strict_first_tick.
Proof.
  split; [done|]. split; [done|]. split; [by vm_compute|compute_in].
Qed.

(** Two sessions of alice from one address, threshold 2. *)
Lemma same_ip_witness :
  _check_login_abnormality (W:=calm_world) default_monitor "alice" "1.1.1.1"
    (alice_state _ [alice_data "S1" "1.1.1.1" 0; alice_data "S3" "1.1.1.1" 5]) =
  (Ok tt,
   alice_state _ [alice_data "S1" "1.1.1.1" 0; alice_data "S3" "1.1.1.1" 5], []).
Proof.
  apply (same_ip_never_alerts (W:=calm_world) default_monitor).
  - vm_compute. discriminate.
  - apply (bool_decide_unpack _). vm_compute. exact Logic.I.
Defined.





(** A session descriptor without its id, followed by S2. *)
Lemma missing_field_witness :
  res (_record_session_start (W:=calm_world) default_monitor nameless_session
         (scripted_start _)) = Ok tt.
Proof.
  apply (missing_field_skips_session (W:=calm_world) default_monitor
           nameless_session (scripted_start _)).
  - apply scripted_quiet_calm.
  - by left.
Defined.

Lemma keys_match_witness :
  keys_match
    (active_sessions
       (final (process_sessions (W:=calm_world) default_monitor
                 (alice_state _ [alice_data "S1" "1.1.1.1" 0])))).
Proof.
  apply (proj1 (keys_match_preserved (W:=calm_world) default_monitor)).
  intros k d Hl. unfold alice_state in Hl. simpl in Hl.
  apply lookup_insert_Some in Hl as [[<- <-]|[_ Hl]]; [done|].
  by rewrite lookup_empty in Hl.
Defined.

(** * More of monitor.py and security.py *)

Section MoreHelpers.

Context {W : World}.

Implicit Types st : state W.

Lemma truthy_app s t : PyStr.truthy s = true -> PyStr.truthy (s +:+ t) = true.
Proof. by destruct s. Qed.

Lemma join_truthy sep p ps :
  PyStr.truthy p = true -> PyStr.truthy (join sep (p :: ps)) = true.
Proof. intros Hp. destruct ps; simpl; [done|]. by apply truthy_app. Qed.

Lemma append_if_truthy_Forall o parts :
  Forall (fun p => PyStr.truthy p = true) parts ->
  Forall (fun p => PyStr.truthy p = true) (append_if_truthy o parts).
Proof.
  intros Hp. destruct o as [v|]; simpl; [|done].
  destruct (PyStr.truthy v) eqn:Hv; [|done].
  apply Forall_app. split; [done|]. by repeat constructor.
Qed.

(** X2. [_get_location] always comes back with a name that is not empty,
    whatever the geo service does: no [Exception] leaves it and the map is
    not touched. Without an address it asks nothing; with one it makes the
    one request, followed at most by the report of its failure. *)
Theorem get_location_always_answers addr st :
  wp (_get_location addr) st (fun r st' evs =>
    active_sessions st' = active_sessions st /\
    (forall e, r = Raise e -> is_Exception e = false) /\
    (forall loc, r = Ok loc -> PyStr.truthy loc = true) /\
    (PyStr.truthy addr = false ->
     st' = st /\ evs = [] /\ r = Ok "未知位置") /\
    (PyStr.truthy addr = true ->
     exists answer tail,
       evs = requests_get_call (geo_url addr) answer :: tail /\
       (tail = [] \/ exists e, tail = [Print (msg_geo_failed addr e)]))).
Proof.
  unfold _get_location, geo_url.
  wp_steps; simpl in *.
  all: repeat match goal with |- _ /\ _ => split end.
  all: try done.
  all: try (intros ? [= <-]; congruence).
  all: try (intros ? [= <-]; done).
  all: try (intros Ht; rewrite Ht in *; done).
  all: try (intros _; do 2 eexists; split; [reflexivity|]; by eauto).
  intros loc [= <-].
  assert (Forall (fun p => PyStr.truthy p = true) (s :: l)) as Hall.
  { rewrite <- Heql. do 3 apply append_if_truthy_Forall. constructor. }
  apply Forall_cons in Hall as [Hs _].
  by apply (join_truthy ", " s l).
Qed.


(** X4. [_log_security_action] asks the database once to log the event, with
    action DISABLE and the user, address and count it was given; when the
    database raises an [Exception] it reports that and returns normally. *)
Theorem log_security_action_swallows_failure uid addr count name st :
  wp (_log_security_action uid addr count name) st (fun r st' evs =>
    active_sessions st' = active_sessions st /\
    exists t answer,
      evs = log_security_event_call
              {| log_timestamp := t; log_user_id := uid;
                 log_username := name; log_trigger_ip := addr;
                 log_active_sessions := count; log_action := "DISABLE" |}
              answer
            :: match answer with
               | Raise e => if is_Exception e then [Print (msg_seclog_failed e)]
                            else []
               | Ok _ => []
               end /\
      r = match answer with
          | Raise e => if is_Exception e then Ok tt else Raise e
          | Ok _ => Ok tt
          end).
Proof.
  unfold _log_security_action.
  wp_steps; simpl in *; (split; [done|]).
  all: match goal with
       | H : db_log_security_event _ _ _ = (?ans, _),
         Ht : datetime_now _ _ = (?t, _) |- _ => exists t, ans
       end.
  all: repeat match goal with
              | H : is_Exception _ = _ |- _ => rewrite H
              | u : unit |- _ => destruct u
              end; done.
Qed.

End MoreHelpers.


Section MoreCheck.

Context {W : World} (mon : EmbyMonitor).

Implicit Types st : state W.
Implicit Types m : gmap string session_data.

Lemma elem_of_user_ips m u a :
  a ∈ user_ips m u <-> exists k d, m !! k = Some d /\ user_id d = u /\ ip d = a.
Proof.
  unfold user_ips. rewrite elem_of_list_to_set, list_elem_of_fmap. split.
  - intros (d & -> & Hd). apply list_elem_of_filter in Hd as [Hu Hd].
    apply list_elem_of_fmap in Hd as ([k d'] & -> & Hkd).
    apply elem_of_map_to_list in Hkd. eauto.
  - intros (k & d & Hkd & Hu & <-). exists d. split; [done|].
    apply list_elem_of_filter. split; [done|].
    apply list_elem_of_fmap. exists (k, d). split; [done|].
    by apply elem_of_map_to_list.
Qed.

Lemma user_ips_size m u p :
  (exists k d, m !! k = Some d /\ user_id d = u /\ ip d = p) ->
  size (user_ips m u) = S (distinctOtherIPs m u p).
Proof.
  intros Hp. rewrite <- existing_ips_size.
  assert (user_ips m u = {[ p ]} ∪ existing_ips m u p) as ->.
  { apply set_eq. intros a.
    rewrite elem_of_union, elem_of_singleton, elem_of_existing_ips,
      elem_of_user_ips.
    split.
    - intros Ha. destruct (decide (a = p)); [by left|by right].
    - intros [->|[_ Ha]]; done. }
  rewrite size_union, size_singleton; [done|].
  apply disjoint_singleton_l. rewrite elem_of_existing_ips. by intros [? _].
Qed.

(** X5. Once the new session, of user [u] at address [p], is in the map, the
    check amounts to counting all the distinct addresses of the user: an
    alert is triggered exactly when alerts are enabled and that number
    reaches the threshold, and that number is the count it is given. *)
Theorem alert_when_distinct_ips_reach_threshold u p st :
  (exists k d,
     active_sessions st !! k = Some d /\ user_id d = u /\ ip d = p) ->
  _check_login_abnormality mon u p st =
  if alerts_enabled mon
     && bool_decide (alert_threshold mon
                     <= Z.of_nat (size (user_ips (active_sessions st) u)))
  then _trigger_alert mon u p
         (Z.of_nat (size (user_ips (active_sessions st) u))) st
  else (Ok tt, st, []).
Proof.
  intros Hp. rewrite check_login_abnormality_unfold. cbv zeta.
  rewrite (user_ips_size _ _ _ Hp).
  replace (Z.of_nat (S (distinctOtherIPs (active_sessions st) u p)))
    with (Z.of_nat (distinctOtherIPs (active_sessions st) u p) + 1) by lia.
  rewrite (bool_decide_ext
             (alert_threshold mon - 1
              <= Z.of_nat (distinctOtherIPs (active_sessions st) u p))
             (alert_threshold mon
              <= Z.of_nat (distinctOtherIPs (active_sessions st) u p) + 1))
    by lia.
  done.
Qed.

End MoreCheck.

Section MoreTick.

Context {W : World} (mon : EmbyMonitor).

Implicit Types st : state W.

(** What a loop emits, and an invariant of the map it keeps, from what its
    body does on the elements of the list. *)
Lemma for_each_emitted {A} (G : event -> Prop) (xs : list A)
      (body : A -> M W unit) st :
  (forall x st', x ∈ xs -> Forall G (emitted (body x st'))) ->
  Forall G (emitted (for_each xs body st)).
Proof.
  revert st. induction xs as [|x xs IH]; intros st Hbody; simpl.
  - constructor.
  - unfold bind, emitted in *. pose proof (Hbody x st (list_elem_of_here _ _)) as Hx.
    destruct (body x st) as [[[[]|e] st1] evs1]; simpl in *; [|done].
    specialize (IH st1 (fun y st' Hy => Hbody y st' (list_elem_of_further _ _ _ Hy))).
    destruct (for_each xs body st1) as [[r st2] evs2]; simpl in *.
    by apply Forall_app.
Qed.

Lemma for_each_invariant {A} (Inv : gmap string session_data -> Prop)
      (xs : list A) (body : A -> M W unit) st :
  (forall x st', x ∈ xs -> Inv (active_sessions st') ->
                 Inv (active_sessions (final (body x st')))) ->
  Inv (active_sessions st) ->
  Inv (active_sessions (final (for_each xs body st))).
Proof.
  revert st. induction xs as [|x xs IH]; intros st Hbody HI; simpl; [done|].
  unfold bind, final in *.
  pose proof (Hbody x st (list_elem_of_here _ _) HI) as Hx.
  destruct (body x st) as [[[[]|e] st1] evs1]; simpl in *; [|done].
  specialize (IH st1 (fun y st' Hy => Hbody y st' (list_elem_of_further _ _ _ Hy)) Hx).
  by destruct (for_each xs body st1) as [[r st2] evs2].
Qed.

(** Where [_record_session_start] leaves the map: as it was, or with one
    record entered under the id of the session. *)
Lemma record_session_start_map s st :
  active_sessions (final (_record_session_start mon s st)) = active_sessions st
  \/ exists d,
       session_Id s = Some (session_id d) /\
       active_sessions (final (_record_session_start mon s st)) =
       <[session_id d := d]> (active_sessions st).
Proof.
  pose proof (record_session_start_spec mon s st) as Hs.
  unfold wp in Hs. destruct Hs as (_ & Hcases).
  destruct Hcases as [(Hm & _)|[(d & e & pre & tail & _ & _ & _ & _ & _ & Hm & _)
                               |(d & pre & post & st1 & _ & _ & Hi & _ & _ & _ & Hm & Hc)]];
    [by left..|].
  right. exists d. split; [done|].
  pose proof (check_login_abnormality_spec mon (user_id d) (ip d) st1) as Hs.
  unfold wp in Hs. rewrite Hc in Hs. destruct Hs as (Hm' & _).
  unfold final in *. simpl in Hm'. congruence.
Qed.

Lemma record_session_end_map sid st :
  active_sessions (final (_record_session_end sid st)) = active_sessions st
  \/ active_sessions (final (_record_session_end sid st)) =
     delete sid (active_sessions st).
Proof.
  pose proof (record_session_end_spec sid st) as Hs.
  unfold wp in Hs. destruct Hs as (_ & Hs).
  destruct (active_sessions st !! sid) as [d|].
  - destruct Hs as (t & [[]|e] & tail & _ & Hr).
    + right. by destruct Hr as (_ & -> & _).
    + left. by destruct Hr as (-> & _).
  - left. by destruct Hs as (_ & -> & _).
Qed.

(** No end record comes out of a session start; the end records of a session
    end are for the id it is given. *)
Lemma record_session_start_no_end s st :
  Forall (fun ev => is_end_record ev = false)
         (emitted (_record_session_start mon s st)).
Proof.
  pose proof (record_session_start_spec mon s st) as Hs.
  unfold wp in Hs. destruct Hs as (_ & Hcases).
  apply Forall_forall. intros ev Hin.
  destruct Hcases as [(_ & Hq)|[(d & e & pre & tail & Hev & Hq & _ & _ & _ & _ & Ht)
                               |(d & pre & post & st1 & Hev & Hq & _ & _ & _ & _ & _ & Hc)]].
  - apply (quiet_elem _ _ Hq) in Hin. by destruct ev.
  - rewrite Hev in Hin.
    destruct (is_Exception e); destruct Ht as [_ ->]; elim_in Hin; subst;
      try done; apply (quiet_elem _ _ Hq) in Hin; by destruct ev.
  - pose proof (check_login_abnormality_spec mon (user_id d) (ip d) st1) as Hs.
    unfold wp, res, final, emitted in Hs. rewrite Hc in Hs. simpl in Hs.
    destruct Hs as (_ & _ & Hpost & _). rewrite Hev in Hin.
    destruct (_ && _); [destruct Hpost as (body & -> & Hb)|subst post];
      elim_in Hin; subst; try done;
      first [ apply (quiet_elem _ _ Hq) in Hin
            | apply (aftermath_elem _ _ Hb) in Hin ]; by destruct ev.
Qed.

Lemma record_session_end_events sid st :
  Forall (fun ev => forall sid' t dur r,
            ev = record_session_end_call sid' t dur r -> sid' = sid)
         (emitted (_record_session_end sid st)).
Proof.
  pose proof (record_session_end_spec sid st) as Hs.
  unfold wp in Hs. destruct Hs as (_ & Hs).
  destruct (active_sessions st !! sid) as [d|].
  - destruct Hs as (t & r' & tail & -> & Hr).
    constructor; [by intros ???? [= <- _ _ _]|].
    destruct r' as [[]|e].
    + destruct Hr as (_ & _ & ->). by repeat constructor.
    + destruct Hr as (_ & Hr).
      destruct (is_Exception e); destruct Hr as [_ ->]; by repeat constructor.
  - destruct Hs as (_ & _ & ->). by repeat constructor.
Qed.

Lemma detect_new_sessions_no_end current st :
  Forall (fun ev => is_end_record ev = false)
         (emitted (_detect_new_sessions mon current st)).
Proof.
  apply for_each_emitted. intros [k s] st' _. unfold bind, get_sessions, emitted.
  simpl. destruct (bool_decide _); simpl; [constructor|].
  pose proof (record_session_start_no_end s st') as Hs. unfold emitted in Hs.
  by destruct (_record_session_start mon s st') as [[r st2] evs2].
Qed.

Lemma detect_ended_sessions_events current st :
  Forall (fun ev => forall sid t dur r,
            ev = record_session_end_call sid t dur r ->
            sid ∈ dom (active_sessions st) /\ sid ∉ current.*1)
         (emitted (_detect_ended_sessions (W:=W) current st)).
Proof.
  unfold _detect_ended_sessions, bind, get_sessions. simpl.
  set (ended := dom (active_sessions st) ∖ list_to_set current.*1).
  pose proof (for_each_emitted
                (fun ev => forall sid t dur r,
                   ev = record_session_end_call sid t dur r ->
                   sid ∈ dom (active_sessions st) /\ sid ∉ current.*1)
                (elements ended) _record_session_end st) as Hf.
  unfold emitted in *.
  destruct (for_each (elements ended) _record_session_end st) as [[r st2] evs2].
  simpl in *. apply Hf. intros sid st' Hsid.
  apply elem_of_elements in Hsid. subst ended.
  apply elem_of_difference in Hsid as [Hd Hn].
  rewrite elem_of_list_to_set in Hn.
  eapply Forall_impl; [apply record_session_end_events|].
  intros ev Hev sid' t dur r' ->. by rewrite (Hev _ _ _ _ eq_refl).
Qed.

(** X6. Sessions whose id is already in the map are passed over: they cost
    no call and change nothing, and the detection goes on with the rest. *)
Theorem known_sessions_are_not_started_again known rest st :
  (forall k, k ∈ known.*1 -> is_Some (active_sessions st !! k)) ->
  _detect_new_sessions mon (known ++ rest) st = _detect_new_sessions mon rest st.
Proof.
  induction known as [|[k s] known IH]; intros Hk; simpl; [done|].
  rewrite detect_new_sessions_cons. unfold bind at 1 2, get_sessions. simpl.
  rewrite bool_decide_eq_true_2 by (apply Hk; simpl; apply list_elem_of_here).
  simpl. rewrite IH.
  - by destruct (_detect_new_sessions mon rest st) as [[r st2] evs2].
  - intros k' Hk'. apply Hk. simpl. by apply list_elem_of_further.
Qed.

Lemma detect_new_sessions_known current st :
  (forall k, k ∈ current.*1 -> is_Some (active_sessions st !! k)) ->
  _detect_new_sessions mon current st = (Ok tt, st, []).
Proof.
  induction current as [|[k s] current IH]; intros Hk; simpl; [done|].
  rewrite detect_new_sessions_cons. unfold bind at 1 2, get_sessions. simpl.
  rewrite bool_decide_eq_true_2 by (apply Hk; simpl; apply list_elem_of_here).
  simpl. rewrite IH; [done|].
  intros k' Hk'. apply Hk. simpl. by apply list_elem_of_further.
Qed.

(** X7. When the server reports exactly the sessions of the map, the tick
    does nothing but fetch: no lookup, no write, no output, the map as it
    was. *)
Theorem unchanged_fetch_is_a_quiet_tick current st en' :
  emby_get_active_sessions W (env st) = (Ok current, en') ->
  dom (active_sessions st) = list_to_set current.*1 ->
  process_sessions mon st =
  (Ok tt, {| active_sessions := active_sessions st; env := en' |},
   [get_active_sessions_call (Ok current)]).
Proof.
  intros Hf Hdom.
  unfold process_sessions, try_except. unfold bind at 1. unfold call at 1.
  rewrite Hf. unfold bind at 1.
  rewrite detect_new_sessions_known.
  2: { intros k Hk. simpl. apply elem_of_dom. rewrite Hdom.
       by apply elem_of_list_to_set. }
  unfold _detect_ended_sessions, bind, get_sessions. simpl.
  rewrite Hdom, difference_diag_L, elements_empty. done.
Qed.

(** X8. A session the server still reports is never recorded as ended:
    whatever the world does, every end record of a tick bears an id that is
    not among the fetched ones. *)
Theorem reported_sessions_are_not_ended current st en' :
  emby_get_active_sessions W (env st) = (Ok current, en') ->
  Forall (fun ev => forall sid t dur r,
            ev = record_session_end_call sid t dur r -> sid ∉ current.*1)
         (emitted (process_sessions mon st)).
Proof.
  intros Hf.
  unfold process_sessions, try_except. unfold bind at 1. unfold call at 1.
  rewrite Hf. unfold bind at 1.
  set (st1 := {| active_sessions := active_sessions st; env := en' |}).
  pose proof (detect_new_sessions_no_end current st1) as Hn.
  unfold emitted in *.
  destruct (_detect_new_sessions mon current st1) as [[[[]|e1] st2] evs1];
    simpl in *.
  - pose proof (detect_ended_sessions_events current st2) as He.
    unfold emitted in He.
    destruct (_detect_ended_sessions current st2) as [[[[]|e2] st3] evs2];
      simpl in *.
    + constructor; [done|]. apply Forall_app. split.
      * eapply Forall_impl; [exact Hn|]. by intros [] ? ? ? ? ?.
      * eapply Forall_impl; [exact He|]. intros ev Hev ???? ->.
        by destruct (Hev _ _ _ _ eq_refl).
    + assert (Forall (fun ev => forall sid t dur r,
                        ev = record_session_end_call sid t dur r ->
                        sid ∉ current.*1)
                     (get_active_sessions_call (Ok current) :: evs1 ++ evs2)).
      { constructor; [done|]. apply Forall_app. split.
        - eapply Forall_impl; [exact Hn|]. by intros [] ? ? ? ? ?.
        - eapply Forall_impl; [exact He|]. intros ev Hev ???? ->.
          by destruct (Hev _ _ _ _ eq_refl). }
      unfold except_Exception. destruct (is_Exception e2); simpl; [|done].
      apply (Forall_app _ (get_active_sessions_call (Ok current) :: evs1 ++ evs2)
               [Print (msg_update_failed e2)]).
      split; [done|]. by repeat constructor.
  - assert (Forall (fun ev => forall sid t dur r,
                      ev = record_session_end_call sid t dur r ->
                      sid ∉ current.*1)
                   (get_active_sessions_call (Ok current) :: evs1)).
    { constructor; [done|].
      eapply Forall_impl; [exact Hn|]. by intros [] ? ? ? ? ?. }
    unfold except_Exception. destruct (is_Exception e1); simpl; [|done].
    apply (Forall_app _ (get_active_sessions_call (Ok current) :: evs1)
             [Print (msg_update_failed e1)]).
    split; [done|]. by repeat constructor.
Qed.

(** The map a tick ends with is the one its last detection step left. *)
Lemma process_sessions_final current st en' :
  emby_get_active_sessions W (env st) = (Ok current, en') ->
  let st1 := {| active_sessions := active_sessions st; env := en' |} in
  let new := _detect_new_sessions mon current st1 in
  active_sessions (final (process_sessions mon st)) =
  match res new with
  | Ok _ => active_sessions (final (_detect_ended_sessions current (final new)))
  | Raise _ => active_sessions (final new)
  end.
Proof.
  intros Hf. cbv zeta.
  unfold process_sessions, try_except. unfold bind at 1. unfold call at 1.
  rewrite Hf. unfold bind at 1. unfold res, final.
  destruct (_detect_new_sessions mon current _) as [[[[]|e1] st2] evs1]; simpl.
  - destruct (_detect_ended_sessions current st2) as [[[[]|e2] st3] evs2];
      simpl; [done|].
    unfold except_Exception. by destruct (is_Exception e2).
  - unfold except_Exception. by destruct (is_Exception e1).
Qed.

(** X9. When the client files every session under its own id, a session
    that is in the map and is still reported goes through the tick with its
    record as it is: start time, name and address are not resolved again,
    whatever the world does. *)
Theorem reported_sessions_keep_their_record current st en' :
  emby_get_active_sessions W (env st) = (Ok current, en') ->
  (forall k s i, (k, s) ∈ current -> session_Id s = Some i -> i = k) ->
  forall k d,
    active_sessions st !! k = Some d -> k ∈ current.*1 ->
    active_sessions (final (process_sessions mon st)) !! k = Some d.
Proof.
  intros Hf Hwf k d Hkd Hk.
  rewrite (process_sessions_final _ _ _ Hf). cbv zeta.
  set (st1 := {| active_sessions := active_sessions st; env := en' |}).
  assert (active_sessions (final (_detect_new_sessions mon current st1)) !! k
          = Some d) as Hnew.
  { apply (for_each_invariant (fun m => m !! k = Some d)); [|done].
    intros [k' s] st' Hin HI. unfold bind, get_sessions, final. simpl.
    destruct (bool_decide _) eqn:Hb; simpl; [done|].
    apply bool_decide_eq_false_1 in Hb.
    destruct (record_session_start_map s st') as [Hm|(d' & Hi & Hm)];
      unfold final in Hm;
      destruct (_record_session_start mon s st') as [[r st2] evs2];
      simpl in *; rewrite Hm; [done|].
    rewrite lookup_insert_ne; [done|].
    intros Heq. apply Hb. rewrite <- (Hwf _ _ _ Hin Hi), Heq. eauto. }
  destruct (res _); [|done].
  unfold _detect_ended_sessions, bind, get_sessions, final. simpl.
  set (st2 := (_detect_new_sessions mon current st1).1.2) in *.
  set (ended := dom (active_sessions st2) ∖ list_to_set current.*1).
  pose proof (for_each_invariant (fun m => m !! k = Some d) (elements ended)
                _record_session_end st2) as Hinv.
  unfold final in Hinv.
  destruct (for_each (elements ended) _record_session_end st2)
    as [[r st3] evs3]; simpl in *.
  apply Hinv; [|done].
  intros sid st' Hsid HI.
  apply elem_of_elements in Hsid. subst ended.
  apply elem_of_difference in Hsid as [_ Hn].
  rewrite elem_of_list_to_set in Hn.
  destruct (record_session_end_map sid st') as [Hm|Hm]; unfold final in Hm;
    rewrite Hm; [done|].
  rewrite lookup_delete_ne; [done|]. by intros ->.
Qed.

(** With a database that accepts every end record, ending a session that is
    in the map deletes it. *)
Lemma record_session_end_accepted sid st d :
  (forall sid' t dur en, (db_record_session_end W sid' t dur en).1 = Ok tt) ->
  active_sessions st !! sid = Some d ->
  res (_record_session_end sid st) = Ok tt /\
  active_sessions (final (_record_session_end sid st)) =
  delete sid (active_sessions st).
Proof.
  intros Hdb Hd.
  unfold _record_session_end, try_except, bind, get_sessions, subscript, now,
    call, print, set_sessions, ret, res, final.
  simpl. rewrite Hd. simpl.
  destruct (datetime_now W (env st)) as [t e1]. simpl.
  pose proof (Hdb sid t (Z.quot (t - start_time d) 1000000) e1) as Hr.
  destruct (db_record_session_end W sid t _ e1) as [r e2]. simpl in *.
  subst r. simpl. rewrite Hd. by simpl.
Qed.

Lemma ended_loop_deletes (l : list string) st :
  (forall sid' t dur en, (db_record_session_end W sid' t dur en).1 = Ok tt) ->
  NoDup l ->
  (forall sid, sid ∈ l -> is_Some (active_sessions st !! sid)) ->
  res (for_each l _record_session_end st) = Ok tt /\
  forall k,
    (k ∈ l ->
     active_sessions (final (for_each l _record_session_end st)) !! k = None) /\
    (k ∉ l ->
     active_sessions (final (for_each l _record_session_end st)) !! k =
     active_sessions st !! k).
Proof.
  intros Hdb. revert st. induction l as [|sid l IH]; intros st Hnd Hin.
  - split; [done|]. intros k. split; [|done]. by intros ?%elem_of_nil.
  - apply NoDup_cons in Hnd as [Hsid Hnd].
    destruct (Hin sid (list_elem_of_here _ _)) as [d Hd].
    destruct (record_session_end_accepted sid st d Hdb Hd) as [Hr Hm].
    cbn [for_each]. unfold bind, res, final in *.
    destruct (_record_session_end sid st) as [[r st1] evs1]. simpl in *.
    subst r.
    destruct (IH st1 Hnd) as [Hr' Hm'].
    { intros x Hx. rewrite Hm, lookup_delete_ne by (by intros ->).
      apply Hin. by apply list_elem_of_further. }
    destruct (for_each l _record_session_end st1) as [[r2 st2] evs2].
    simpl in *. split; [done|]. intros k. destruct (Hm' k) as [Hin' Hout'].
    split.
    + intros [->|Hk]%elem_of_cons.
      * rewrite Hout' by done. rewrite Hm. apply lookup_delete_eq.
      * by apply Hin'.
    + intros Hk. apply not_elem_of_cons in Hk as [Hne Hk].
      rewrite Hout' by done. rewrite Hm. by apply lookup_delete_ne.
Qed.

(** X10. In a world without interrupts whose database accepts every end
    record, after a tick with a successful fetch every session left in the
    map is one the server reported. *)
Theorem tick_leaves_only_reported_sessions current st en' :
  calm W ->
  (forall sid t dur en, (db_record_session_end W sid t dur en).1 = Ok tt) ->
  emby_get_active_sessions W (env st) = (Ok current, en') ->
  dom (active_sessions (final (process_sessions mon st)))
  ⊆ list_to_set current.*1.
Proof.
  intros Hcalm Hdb Hf.
  rewrite (process_sessions_final _ _ _ Hf). cbv zeta.
  set (st1 := {| active_sessions := active_sessions st; env := en' |}).
  pose proof (detect_new_sessions_kept mon (fun _ => True)
                (fun _ _ _ _ => Logic.I) current st1 Logic.I) as Hn.
  unfold wp in Hn. destruct Hn as (_ & _ & Hesc).
  destruct (res (_detect_new_sessions mon current st1)) as [[]|e];
    [|by destruct (Hesc e eq_refl)].
  set (st2 := final (_detect_new_sessions mon current st1)).
  unfold _detect_ended_sessions, bind, get_sessions, final. simpl.
  set (ended := dom (active_sessions st2) ∖ list_to_set current.*1).
  destruct (ended_loop_deletes (elements ended) st2 Hdb) as [_ Hm].
  { apply NoDup_elements. }
  { intros sid Hsid. apply elem_of_elements in Hsid. subst ended.
    apply elem_of_difference in Hsid as [Hd _]. by apply elem_of_dom. }
  unfold final in Hm.
  destruct (for_each (elements ended) _record_session_end st2)
    as [[r st3] evs3]. simpl in *.
  intros k Hk. apply elem_of_dom in Hk as [d Hk].
  destruct (Hm k) as [Hin Hout].
  destruct (decide (k ∈ elements ended)) as [He|Hne];
    [rewrite Hin in Hk; done|].
  rewrite Hout in Hk by done.
  rewrite elem_of_elements in Hne. subst ended.
  destruct (decide (k ∈ (list_to_set current.*1 : gset string))); [done|].
  destruct Hne. apply elem_of_difference. split; [|done].
  apply elem_of_dom. eauto.
Qed.

End MoreTick.


(** ** The same, on concrete runs *)

Lemma alert_when_distinct_ips_witness :
  _check_login_abnormality (W:=calm_world) default_monitor "alice" "2.2.2.2"
    (alice_state _ [alice_data "S1" "1.1.1.1" 0; alice_data "S2" "2.2.2.2" 0])
  = _trigger_alert (W:=calm_world) default_monitor "alice" "2.2.2.2" 2
      (alice_state _ [alice_data "S1" "1.1.1.1" 0; alice_data "S2" "2.2.2.2" 0]).
Proof.
  etrans.
  - apply (alert_when_distinct_ips_reach_threshold (W:=calm_world)
             default_monitor "alice" "2.2.2.2").
    exists "S2", (alice_data "S2" "2.2.2.2" 0). by vm_compute.
  - by vm_compute.
Defined.

Lemma known_sessions_witness :
  _detect_new_sessions (W:=calm_world) default_monitor
    ([("S1", alice_s1)] ++ [("S2", alice_s2)])
    (alice_state _ [alice_data "S1" "1.1.1.1" 0])
  = _detect_new_sessions (W:=calm_world) default_monitor [("S2", alice_s2)]
      (alice_state _ [alice_data "S1" "1.1.1.1" 0]).
Proof.
  apply (known_sessions_are_not_started_again (W:=calm_world) default_monitor).
  intros k Hk. apply list_elem_of_singleton in Hk as ->.
  exists (alice_data "S1" "1.1.1.1" 0). by vm_compute.
Defined.

Lemma unchanged_fetch_witness :
  process_sessions (W:=calm_world) default_monitor
    (alice_state _ [alice_data "S1" "1.1.1.1" 0; alice_data "S2" "2.2.2.2" 0])
  = (Ok tt,
     @Build_state calm_world
       (active_sessions
          (alice_state (quiet_script two_then_none)
             [alice_data "S1" "1.1.1.1" 0; alice_data "S2" "2.2.2.2" 0]))
       2%nat,
     [get_active_sessions_call (Ok (two_then_none 1))]).
Proof.
  apply (unchanged_fetch_is_a_quiet_tick (W:=calm_world) default_monitor
           (two_then_none 1)).
  - reflexivity.
  - by vm_compute.
Defined.

Lemma reported_not_ended_witness :
  Forall (fun ev => forall sid t dur r,
            ev = record_session_end_call sid t dur r ->
            sid ∉ (two_then_none 1).*1)
    (emitted (process_sessions (W:=calm_world) default_monitor
                (alice_state _ [alice_data "S1" "1.1.1.1" 0;
                                alice_data "S9" "9.9.9.9" 0]))).
Proof.
  apply (reported_sessions_are_not_ended (W:=calm_world) default_monitor
           (two_then_none 1) _ 2%nat).
  reflexivity.
Defined.

Lemma reported_keep_record_witness :
  active_sessions
    (final (process_sessions (W:=calm_world) default_monitor
              (alice_state _ [alice_data "S1" "1.1.1.1" 0;
                              alice_data "S9" "9.9.9.9" 0])))
    !! "S1" = Some (alice_data "S1" "1.1.1.1" 0).
Proof.
  apply (reported_sessions_keep_their_record (W:=calm_world) default_monitor
           (two_then_none 1) _ 2%nat).
  - reflexivity.
  - intros k s i Hin Hi. simpl in Hin.
    apply elem_of_cons in Hin as [Hin|Hin];
      [|apply list_elem_of_singleton in Hin];
      simplify_eq; vm_compute in Hi; by simplify_eq.
  - by vm_compute.
  - simpl. apply list_elem_of_here.
Defined.

Lemma only_reported_witness :
  dom (active_sessions
         (final (process_sessions (W:=calm_world) default_monitor
                   (alice_state _ [alice_data "S1" "1.1.1.1" 0;
                                   alice_data "S9" "9.9.9.9" 0]))))
  ⊆ list_to_set (two_then_none 1).*1.
Proof.
  apply (tick_leaves_only_reported_sessions (W:=calm_world) default_monitor
           (two_then_none 1) _ 2%nat).
  - apply scripted_quiet_calm.
  - reflexivity.
  - reflexivity.
Defined.


(** * The database of database.py *)

Section Rows.

Import Database.

Implicit Types l : list playback_row.

Lemma open_ids_app l1 l2 : open_ids (l1 ++ l2) = open_ids l1 ∪ open_ids l2.
Proof.
  unfold open_ids. by rewrite filter_app, fmap_app, list_to_set_app_L.
Qed.

Lemma open_ids_start_row d : open_ids [start_row d] = {[ session_id d ]}.
Proof. unfold open_ids. set_solver. Qed.

Lemma open_ids_end_row sid t dur l :
  open_ids (end_row sid t dur <$> l) = open_ids l ∖ {[ sid ]}.
Proof.
  unfold open_ids. induction l as [|r l IH]; [set_solver|].
  rewrite fmap_cons. unfold end_row at 1.
  destruct (bool_decide_reflect (pb_session_id r = sid)) as [Hs|Hs].
  - rewrite filter_cons_False by done.
    destruct (decide (pb_end_time r = None)).
    + rewrite filter_cons_True by done. set_solver.
    + rewrite filter_cons_False by done. set_solver.
  - destruct (decide (pb_end_time r = None)).
    + rewrite !filter_cons_True by done. set_solver.
    + rewrite !filter_cons_False by done. set_solver.
Qed.

(** X11. [record_session_end] sets the end and the duration of every row of
    the session id, of rows that had an end already too, and nothing else:
    the rows stay as many and in their places, the rows of other ids and
    the other columns are as before, as is the security log. *)
Theorem record_session_end_closes_every_row_of_the_id sid t dur base :
  length (playback_history (record_session_end sid t dur base)) =
  length (playback_history base) /\
  security_log (record_session_end sid t dur base) = security_log base /\
  forall i r, playback_history base !! i = Some r ->
    exists r', playback_history (record_session_end sid t dur base) !! i = Some r' /\
      (pb_session_id r <> sid -> r' = r) /\
      (pb_session_id r = sid ->
         pb_end_time r' = Some (strftime t) /\ pb_duration r' = Some dur) /\
      pb_session_id r' = pb_session_id r /\
      pb_user_id r' = pb_user_id r /\
      pb_username r' = pb_username r /\
      pb_ip_address r' = pb_ip_address r /\
      pb_device_name r' = pb_device_name r /\
      pb_client_type r' = pb_client_type r /\
      pb_media_name r' = pb_media_name r /\
      pb_start_time r' = pb_start_time r /\
      pb_location r' = pb_location r.
Proof.
  split; [by simpl; rewrite length_fmap|]. split; [done|].
  intros i r Hi. exists (end_row sid t dur r). split.
  { simpl. by rewrite list_lookup_fmap, Hi. }
  unfold end_row.
  by destruct (bool_decide_reflect (pb_session_id r = sid)).
Qed.

(** X12. Of two end records for one session id the later one stands; end
    records for different ids do not disturb one another. *)
Theorem later_end_record_stands sid sid' t1 d1 t2 d2 base :
  record_session_end sid t2 d2 (record_session_end sid t1 d1 base) =
  record_session_end sid t2 d2 base /\
  (sid <> sid' ->
   record_session_end sid t1 d1 (record_session_end sid' t2 d2 base) =
   record_session_end sid' t2 d2 (record_session_end sid t1 d1 base)).
Proof.
  unfold record_session_end; simpl. split; [|intros Hne].
  all: f_equal; rewrite <- !list_fmap_compose; apply list_fmap_ext.
  all: intros i r _; simpl; unfold end_row.
  all: repeat (case_bool_decide; simpl in *); congruence.
Qed.

(** X13. A start record followed by the end record of its session: the new
    row is the last one, holds what the start record gave, the start cut to
    the second, and the given end and duration; no row of the session is
    left open, the open rows of other sessions are as before. *)
Theorem start_then_end_closes_the_session d t dur base :
  last (playback_history
          (record_session_end (session_id d) t dur
             (record_session_start d base))) =
  Some {| pb_session_id := session_id d;
          pb_user_id := user_id d;
          pb_username := username d;
          pb_ip_address := ip d;
          pb_device_name := device d;
          pb_client_type := client d;
          pb_media_name := media d;
          pb_start_time := start_time d `div` 1000000;
          pb_end_time := Some (t `div` 1000000);
          pb_duration := Some dur;
          pb_location := location d |} /\
  open_ids (playback_history
              (record_session_end (session_id d) t dur
                 (record_session_start d base))) =
  open_ids (playback_history base) ∖ {[ session_id d ]}.
Proof.
  split.
  - simpl. rewrite fmap_app. cbn [fmap list_fmap]. rewrite last_snoc.
    unfold end_row, start_row; simpl. by rewrite bool_decide_eq_true_2.
  - simpl. rewrite open_ids_end_row, open_ids_app, open_ids_start_row.
    set_solver.
Qed.

End Rows.


(** * The monitor and its playback table *)

(** What the calls of a path did to the table, from the answers they gave. *)
Ltac table_fact H lem :=
  let T := fresh "T" in
  pose proof lem as T; rewrite H in T; simpl in T; clear H.

Ltac table_facts :=
  repeat match goal with
    | KT : keeps_playback_table _ _, H : emby_get_active_sessions _ ?en = _ |- _ =>
        table_fact H (kt_fetch _ _ KT en)
    | KT : keeps_playback_table _ _, H : emby_get_user_info _ ?u ?en = _ |- _ =>
        table_fact H (kt_user _ _ KT u en)
    | KT : keeps_playback_table _ _, H : emby_parse_media_info _ ?i ?en = _ |- _ =>
        table_fact H (kt_media _ _ KT i en)
    | KT : keeps_playback_table _ _, H : requests_get _ ?u ?en = _ |- _ =>
        table_fact H (kt_get _ _ KT u en)
    | KT : keeps_playback_table _ _, H : session_post _ ?u ?b ?en = _ |- _ =>
        table_fact H (kt_post _ _ KT u b en)
    | KT : keeps_playback_table _ _, H : datetime_now _ ?en = _ |- _ =>
        table_fact H (kt_now _ _ KT en)
    | KT : keeps_playback_table _ _, H : time_sleep _ ?s ?en = _ |- _ =>
        table_fact H (kt_sleep _ _ KT s en)
    | KT : keeps_playback_table _ _, H : db_log_security_event _ ?l ?en = _ |- _ =>
        table_fact H (kt_log _ _ KT l en)
    | KT : keeps_playback_table _ _, H : db_record_session_start _ ?d ?en = _ |- _ =>
        table_fact H (kt_start _ _ KT d en)
    | KT : keeps_playback_table _ _,
      H : db_record_session_end _ ?sid ?t ?dur ?en = _ |- _ =>
        table_fact H (kt_end _ _ KT sid t dur en)
    end.

Ltac untouched_leaf :=
  unfold untouched in *; simpl in *; table_facts;
  repeat match goal with H : _ /\ _ |- _ => destruct H end;
  split; congruence.

Section Apart.

Context {W : World}.
Context (table : Env W -> list Database.playback_row).
Context (KT : keeps_playback_table W table).

Implicit Types st : state W.

Lemma get_location_untouched addr st :
  wp (_get_location addr) st (fun _ st' _ => untouched table st st').
Proof. unfold _get_location. wp_steps; untouched_leaf. Qed.

Lemma disable_user_untouched sec uid name st :
  wp (disable_user sec uid name) st (fun _ st' _ => untouched table st st').
Proof. unfold disable_user. wp_steps; untouched_leaf. Qed.

Lemma log_security_action_untouched uid addr count name st :
  wp (_log_security_action uid addr count name) st
     (fun _ st' _ => untouched table st st').
Proof. unfold _log_security_action. wp_steps; untouched_leaf. Qed.

End Apart.

(** Steps that keep track of the table. *)
Ltac table_known :=
  lazymatch goal with
  | KT : keeps_playback_table _ _ |- wp (_get_location _) _ _ =>
      eapply wp_mono; [apply (get_location_untouched _ KT)|];
      cbv beta; intros [?|?] ? ? ?
  | KT : keeps_playback_table _ _ |- wp (disable_user _ _ _) _ _ =>
      eapply wp_mono; [apply (disable_user_untouched _ KT)|];
      cbv beta; intros [[|]|?] ? ? ?
  | KT : keeps_playback_table _ _ |- wp (_log_security_action _ _ _ _) _ _ =>
      eapply wp_mono; [apply (log_security_action_untouched _ KT)|];
      cbv beta; intros [?|?] ? ? ?
  end.

Ltac table_steps := repeat first [table_known | wp_step].

Section AlertsApart.

Context {W : World} (mon : EmbyMonitor).
Context (table : Env W -> list Database.playback_row).
Context (KT : keeps_playback_table W table).

Implicit Types st : state W.

Lemma trigger_alert_untouched uid addr count st :
  wp (_trigger_alert mon uid addr count) st
     (fun _ st' _ => untouched table st st').
Proof. unfold _trigger_alert. table_steps; untouched_leaf. Qed.

Lemma check_login_abnormality_untouched uid addr st :
  wp (_check_login_abnormality mon uid addr) st
     (fun _ st' _ => untouched table st st').
Proof.
  unfold _check_login_abnormality.
  repeat first
    [ lazymatch goal with
      | |- wp (_trigger_alert _ _ _ _) _ _ =>
          eapply wp_mono; [apply trigger_alert_untouched|];
          cbv beta; intros ? ? ? ?
      end
    | wp_step ];
    untouched_leaf.
Qed.

End AlertsApart.

Ltac table_known ::=
  lazymatch goal with
  | KT : keeps_playback_table _ _ |- wp (_get_location _) _ _ =>
      eapply wp_mono; [apply (get_location_untouched _ KT)|];
      cbv beta; intros [?|?] ? ? ?
  | KT : keeps_playback_table _ _ |- wp (_check_login_abnormality _ _ _) _ _ =>
      eapply wp_mono; [apply (check_login_abnormality_untouched _ _ KT)|];
      cbv beta; intros [?|?] ? ? ?
  end.

Section Persist.

Context {W : World} (mon : EmbyMonitor).
Context (table : Env W -> list Database.playback_row).
Context (KT : keeps_playback_table W table).

Implicit Types st : state W.

(** What [_record_session_start] and [_record_session_end] do to the map
    and to the table together. *)
Lemma record_session_start_table s st :
  wp (_record_session_start mon s) st (fun _ st' _ =>
    untouched table st st' \/
    exists d,
      active_sessions st' = <[session_id d := d]> (active_sessions st) /\
      table (env st') = table (env st) ++ [Database.start_row d]).
Proof.
  unfold _record_session_start. table_steps.
  all: unfold untouched in *; simpl in *; table_facts.
  all: repeat match goal with H : _ /\ _ |- _ => destruct H end.
  all: try (left; split; congruence).
  all: match goal with
       | Hs : table _ = table _ ++ [Database.start_row ?d] |- _ =>
           right; exists d; simpl; split; congruence
       end.
Qed.

Lemma record_session_end_table sid st :
  wp (_record_session_end sid) st (fun _ st' _ =>
    untouched table st st' \/
    exists t dur,
      active_sessions st' = delete sid (active_sessions st) /\
      table (env st') = Database.end_row sid t dur <$> table (env st)).
Proof.
  unfold _record_session_end. table_steps.
  all: unfold untouched in *; simpl in *; table_facts.
  all: try (left; split; congruence).
  right. do 2 eexists. split; [done|]. by rewrite T0, T.
Qed.

Lemma for_each_state {A} (J : state W -> Prop) (xs : list A)
      (body : A -> M W unit) :
  (forall x st, J st -> wp (body x) st (fun _ st' _ => J st')) ->
  forall st, J st -> wp (for_each xs body) st (fun _ st' _ => J st').
Proof.
  intros Hbody. induction xs as [|x xs IH]; intros st HJ; simpl.
  - by apply wp_ret.
  - apply wp_bind. eapply wp_mono; [by apply Hbody|].
    intros [[]|e] st1 evs1 HJ1; [|done].
    eapply wp_mono; [by apply IH|]. done.
Qed.

Context (stale : gset string).

Lemma agrees_untouched st st' :
  untouched table st st' ->
  table_agrees table stale st -> table_agrees table stale st'.
Proof. unfold table_agrees. by intros [-> ->]. Qed.

Lemma record_session_start_agrees s st :
  table_agrees table stale st ->
  wp (_record_session_start mon s) st
     (fun _ st' _ => table_agrees table stale st').
Proof.
  intros HJ. eapply wp_mono; [apply record_session_start_table|].
  intros _ st' _ [Hu|(d & Ha & Ht)]; [by eapply agrees_untouched|].
  unfold table_agrees in *. destruct HJ as [HJ1 HJ2].
  rewrite Ha, Ht, open_ids_app, open_ids_start_row, dom_insert_L.
  set_solver.
Qed.

Lemma record_session_end_agrees sid st :
  table_agrees table stale st ->
  wp (_record_session_end sid) st
     (fun _ st' _ => table_agrees table stale st').
Proof.
  intros HJ. eapply wp_mono; [apply record_session_end_table|].
  intros _ st' _ [Hu|(t & dur & Ha & Ht)]; [by eapply agrees_untouched|].
  unfold table_agrees in *. destruct HJ as [HJ1 HJ2].
  rewrite Ha, Ht, open_ids_end_row, dom_delete_L.
  set_solver.
Qed.

Lemma process_sessions_agrees st :
  table_agrees table stale st ->
  wp (process_sessions mon) st (fun _ st' _ => table_agrees table stale st').
Proof.
  intros HJ. unfold process_sessions.
  apply wp_try, wp_bind, wp_call. intros [current|e] e' Hf.
  all: assert (table_agrees table stale
                 {| active_sessions := active_sessions st; env := e' |}) as HJ1
         by (eapply agrees_untouched; [|exact HJ];
             unfold untouched; simpl; table_facts; by split).
  - apply wp_bind. unfold _detect_new_sessions, _detect_ended_sessions.
    eapply wp_mono;
      [apply (for_each_state (table_agrees table stale)); [|exact HJ1]|].
    + intros [k s] st1 HJ2. wp_steps; [done|].
      by apply record_session_start_agrees.
    + intros [[]|e] st2 evs2 HJ2.
      * wp_steps.
        eapply wp_mono;
          [apply (for_each_state (table_agrees table stale)); [|exact HJ2]|].
        -- intros sid st3 HJ3. by apply record_session_end_agrees.
        -- intros [[]|e] st3 evs3 HJ3; [done|].
           unfold except_Exception. destruct (is_Exception e); [|done].
           by apply wp_print.
      * unfold except_Exception. destruct (is_Exception e); [|done].
        by apply wp_print.
  - unfold except_Exception. destruct (is_Exception e); [|done].
    by apply wp_print.
Qed.

Lemma while_True_agrees fuel st :
  table_agrees table stale st ->
  table_agrees table stale (while_True mon fuel st).1.2.
Proof.
  revert st. induction fuel as [|n IH]; intros st HJ; simpl; [done|].
  assert (wp (loop_body mon) st (fun _ st' _ => table_agrees table stale st'))
    as Hb.
  { unfold loop_body. apply wp_bind.
    eapply wp_mono; [by apply process_sessions_agrees|].
    intros [[]|e] st1 evs1 HJ1; [|done].
    apply wp_call. intros r e' Hf.
    eapply agrees_untouched; [|exact HJ1].
    unfold untouched; simpl; table_facts; by split. }
  unfold wp, res, final, emitted in Hb.
  destruct (loop_body mon st) as [[[[]|e] st1] evs1]; simpl in *; [|done].
  specialize (IH st1 Hb).
  by destruct (while_True mon n st1) as [[r st2] evs2].
Qed.

Lemma run_agrees fuel st :
  table_agrees table stale st ->
  table_agrees table stale (run mon fuel st).1.2.
Proof.
  intros HJ. pose proof (while_True_agrees fuel st HJ) as Hw.
  unfold run. destruct (while_True mon fuel st) as [[[e|] st1] evs]; [|done].
  simpl in *. by destruct (is_KeyboardInterrupt e), (is_Exception e).
Qed.

(** X14. The playback table and the map stay in step, whatever fails. In a
    world that keeps a playback table as database.py does, from a state
    where every session of the map has an open row, a tick and any number
    of passes of [run] end in such a state: every active session has an open
    row, and every open row belongs to an active session or to a session
    that was left open before. From an empty map on, the rows left open
    before are those open in the database the monitor finds. *)
Theorem playback_table_in_step_with_map :
  (forall st, table_agrees table stale st ->
     table_agrees table stale (final (process_sessions mon st))) /\
  (forall fuel st, table_agrees table stale st ->
     table_agrees table stale (run mon fuel st).1.2) /\
  (forall fuel (e0 : Env W),
     stale = Database.open_ids (table e0) ->
     table_agrees table stale (run mon fuel (initial_state e0)).1.2).
Proof.
  split; [|split; [apply run_agrees|]].
  - intros st HJ. by apply (process_sessions_agrees st HJ).
  - intros fuel e0 Hs. apply run_agrees.
    unfold table_agrees, initial_state; simpl. rewrite Hs. set_solver.
Qed.

End Persist.

(** The monitor wired to the database as in main.py. *)
Lemma with_database_keeps W : keeps_playback_table (with_database W) playback_table.
Proof.
  split; intros; unfold playback_table; simpl; try done.
  all: unfold executing.
  all: match goal with |- context [match ?x with _ => _ end] =>
         destruct x as [[[]|?] ?] end; done.
Qed.

(** X15. The monitor of main.py on a fresh database: after any number of
    passes of [run], whatever the collaborators answer and whichever
    statements the database refuses, the sessions with an open row in
    playback_history are exactly the sessions of [active_sessions]. *)
Theorem open_rows_are_the_active_sessions W mon fuel (e0 : Env W) :
  Database.open_ids
    (playback_table
       (env (run mon fuel
               (initial_state (W:=with_database W) (e0, Database.empty))).1.2)) =
  dom (active_sessions
         (run mon fuel
            (initial_state (W:=with_database W) (e0, Database.empty))).1.2).
Proof.
  pose proof (run_agrees mon playback_table (with_database_keeps W) ∅ fuel
                (initial_state (W:=with_database W) (e0, Database.empty))) as H.
  unfold table_agrees in H.
  destruct H as [H1 H2]; [by unfold initial_state; simpl; set_solver|].
  set_solver.
Qed.

Lemma playback_table_in_step_witness :
  table_agrees playback_table ∅ three_passes.1.2.
Proof.
  apply (playback_table_in_step_with_map default_monitor playback_table
           (with_database_keeps _) ∅).
  unfold table_agrees. simpl. set_solver.
Defined.


(** * The webhook notifier of webhook_notifier.py *)

Section Templates.

Import Webhook.

Context (out : Outside).

(** Induction on a JSON value, through its dicts and lists. *)
Lemma jvalue_induction (P : jvalue -> Prop) :
  (forall s, P (JStr s)) ->
  (forall items, Forall (fun kv => P kv.2) items -> P (JDict items)) ->
  (forall items, Forall P items -> P (JList items)) ->
  (forall n, P (JInt n)) ->
  (forall b, P (JBool b)) ->
  P JNull ->
  forall v, P v.
Proof.
  intros HS HD HL HI HB HN. fix IH 1.
  intros [s|items|items|n|b|]; [apply HS| | |apply HI|apply HB|apply HN].
  - apply HD. induction items as [|[k v] items IHl]; constructor; [apply IH|exact IHl].
  - apply HL. induction items as [|v items IHl]; constructor; [apply IH|exact IHl].
Qed.

Lemma rendered_dict info d d' :
  rendered out info (JDict d) (JDict d') <->
  Forall2 (fun kv kv' => kv.1 = kv'.1 /\ rendered out info kv.2 kv'.2) d d'.
Proof.
  revert d'. induction d as [|[k x] d IH]; intros [|[k' x'] d']; simpl.
  - split; [constructor|done].
  - split; [done|inversion 1].
  - split; [done|inversion 1].
  - split.
    + intros (-> & Hx & Hr). constructor; [done|]. by apply IH.
    + inversion 1 as [|? ? ? ? [Hk Hx] Hr]; simplify_eq/=.
      split; [done|]. split; [done|]. by apply IH.
Qed.

Lemma rendered_list info l l' :
  rendered out info (JList l) (JList l') <-> Forall2 (rendered out info) l l'.
Proof.
  revert l'. induction l as [|x l IH]; intros [|x' l']; simpl.
  - split; [constructor|done].
  - split; [done|inversion 1].
  - split; [done|inversion 1].
  - split.
    + intros (Hx & Hr). constructor; [done|]. by apply IH.
    + inversion 1; simplify_eq/=. split; [done|]. by apply IH.
Qed.

Lemma well_formed_dict d :
  well_formed (JDict d) <-> NoDup d.*1 /\ Forall (fun kv => well_formed kv.2) d.
Proof.
  simpl. apply and_iff_compat_l.
  induction d as [|[k x] d IH]; simpl.
  - split; [constructor|done].
  - rewrite Forall_cons. simpl. by rewrite IH.
Qed.

Lemma well_formed_list l :
  well_formed (JList l) <-> Forall well_formed l.
Proof.
  induction l as [|x l IH]; simpl.
  - split; [constructor|done].
  - rewrite Forall_cons. simpl in IH. by rewrite IH.
Qed.

(** Assigning to a key that is not there appends. *)
Lemma setitem_fresh k v d : k ∉ d.*1 -> setitem k v d = d ++ [(k, v)].
Proof.
  induction d as [|[k' v'] d IH]; simpl; [done|].
  intros Hk. apply not_elem_of_cons in Hk as [Hne Hk].
  rewrite bool_decide_eq_false_2 by done. by rewrite IH.
Qed.

(** What the loop over the items of a dict builds, when no key comes
    twice: one item per item, under the same key, in the same order. *)
Lemma for_items_spec (f : jvalue -> outcome jvalue * list event)
      (R : jvalue -> jvalue -> Prop) (G : event -> Prop) (E : error -> Prop)
      items acc :
  Forall (fun kv =>
            match f kv.2 with
            | (Returns v', evs) => R kv.2 v' /\ Forall G evs
            | (Raises e, evs) => E e /\ Forall G evs
            end) items ->
  NoDup (acc.*1 ++ items.*1) ->
  match for_items f items acc with
  | (Returns result, evs) =>
      (exists items',
         result = acc ++ items' /\
         Forall2 (fun kv kv' => kv.1 = kv'.1 /\ R kv.2 kv'.2) items items') /\
      Forall G evs
  | (Raises e, evs) => E e /\ Forall G evs
  end.
Proof.
  revert acc. induction items as [|[k v] items IH]; intros acc Hf Hnd; simpl.
  - split; [|constructor]. exists []. by rewrite app_nil_r.
  - apply Forall_cons in Hf as [Hv Hf]. simpl in Hv.
    destruct (f v) as [[v'|e] evs]; [|done]. destruct Hv as [HR HG].
    assert (k ∉ acc.*1) as Hk.
    { apply NoDup_app in Hnd as (_ & Hd & _). intros Hin.
      apply (Hd k Hin). simpl. apply list_elem_of_here. }
    specialize (IH (setitem k v' acc) Hf).
    rewrite setitem_fresh in * by done.
    destruct (for_items f items (acc ++ [(k, v')])) as [[result|e] evs'].
    + destruct IH as [(items' & -> & H2) HG'].
      { rewrite fmap_app, <- app_assoc. exact Hnd. }
      split; [|by apply Forall_app]. exists ((k, v') :: items').
      split; [by rewrite <- app_assoc|]. by constructor.
    + destruct IH as [HE HG'].
      { rewrite fmap_app, <- app_assoc. exact Hnd. }
      split; [done|by apply Forall_app].
Qed.

Lemma comprehension_spec (f : jvalue -> outcome jvalue * list event)
      (R : jvalue -> jvalue -> Prop) (G : event -> Prop) (E : error -> Prop)
      items :
  Forall (fun v =>
            match f v with
            | (Returns v', evs) => R v v' /\ Forall G evs
            | (Raises e, evs) => E e /\ Forall G evs
            end) items ->
  match comprehension f items with
  | (Returns result, evs) => Forall2 R items result /\ Forall G evs
  | (Raises e, evs) => E e /\ Forall G evs
  end.
Proof.
  induction items as [|v items IH]; intros Hf; simpl.
  - split; constructor.
  - apply Forall_cons in Hf as [Hv Hf].
    destruct (f v) as [[v'|e] evs]; [|done]. destruct Hv as [HR HG].
    specialize (IH Hf).
    destruct (comprehension f items) as [[result|e] evs'].
    + destruct IH as [H2 HG']. split; [by constructor|by apply Forall_app].
    + destruct IH as [HE HG']. split; [done|by apply Forall_app].
Qed.


(** The keys of the items the loop builds. *)
Lemma Forall2_keys {A B} (R : A -> B -> Prop)
      (d : list (string * A)) (d' : list (string * B)) :
  Forall2 (fun kv kv' => kv.1 = kv'.1 /\ R kv.2 kv'.2) d d' -> d'.*1 = d.*1.
Proof.
  induction 1 as [|[k x] [k' x'] d d' [Hk _] _ IH]; [done|].
  rewrite !fmap_cons. simpl in *. by rewrite IH, Hk.
Qed.

Lemma format_template_spec info v :
  well_formed v ->
  match _format_template out v info with
  | (Returns v', evs) =>
      (rendered out info v v' /\ well_formed v') /\
      Forall (fun ev => exists e, ev = Log WARNING (template_failed e)) evs
  | (Raises e, evs) =>
      (is_KeyError_or_ValueError e = false /\
       exists s, str_format out s info = Raises e) /\
      Forall (fun ev => exists e, ev = Log WARNING (template_failed e)) evs
  end.
Proof.
  induction v as [s|items IH|items IH|n|b|] using jvalue_induction;
    intros Hwf; try (by repeat split; constructor).
  - simpl. destruct (str_format out s info) as [s'|e] eqn:Hs.
    + repeat split; [by left|constructor].
    + destruct (is_KeyError_or_ValueError e) eqn:He.
      * repeat split; [right; eauto|]. repeat constructor. by eexists.
      * repeat split; [done|eauto|constructor].
  - apply well_formed_dict in Hwf as [Hnd Hwf].
    cbn [_format_template].
    pose proof (for_items_spec (fun v => _format_template out v info)
                  (fun v v' => rendered out info v v' /\ well_formed v')
                  (fun ev => exists e, ev = Log WARNING (template_failed e))
                  (fun e => is_KeyError_or_ValueError e = false /\
                            exists s, str_format out s info = Raises e)
                  items []) as Hloop.
    destruct (for_items _ items []) as [[result|e] evs].
    + destruct Hloop as [(items' & -> & H2) HG]; [|done|].
      { apply Forall_forall. intros kv Hin.
        rewrite Forall_forall in IH, Hwf. by apply IH, Hwf. }
      split; [|done]. simpl app. split.
      * apply rendered_dict. eapply Forall2_impl; [exact H2|]. naive_solver.
      * apply well_formed_dict. split.
        -- by rewrite (Forall2_keys
                         (fun v v' => rendered out info v v' /\ well_formed v')
                         _ _ H2).
        -- clear -H2. induction H2; constructor; naive_solver.
    + destruct Hloop as [HE HG]; [|done|done].
      apply Forall_forall. intros kv Hin.
      rewrite Forall_forall in IH, Hwf. by apply IH, Hwf.
  - apply well_formed_list in Hwf.
    cbn [_format_template].
    pose proof (comprehension_spec (fun v => _format_template out v info)
                  (fun v v' => rendered out info v v' /\ well_formed v')
                  (fun ev => exists e, ev = Log WARNING (template_failed e))
                  (fun e => is_KeyError_or_ValueError e = false /\
                            exists s, str_format out s info = Raises e)
                  items) as Hloop.
    destruct (comprehension _ items) as [[result|e] evs].
    + destruct Hloop as [H2 HG].
      { apply Forall_forall. intros kv Hin.
        rewrite Forall_forall in IH, Hwf. by apply IH, Hwf. }
      split; [|done]. split.
      * apply rendered_list. eapply Forall2_impl; [exact H2|]. naive_solver.
      * apply well_formed_list. clear -H2.
        induction H2; constructor; naive_solver.
    + destruct Hloop as [HE HG]; [|done].
      apply Forall_forall. intros kv Hin.
      rewrite Forall_forall in IH, Hwf. by apply IH, Hwf.
Qed.

(** X16. [_format_template] fills the templates in where they stand: the
    result has the strings formatted, each string that [str.format] rejects
    with a [KeyError] or a [ValueError] left as it was, the same keys in the
    same order in every dict, every list as long as before, and the other
    values unchanged. It raises only what [str.format] raised and it does
    not catch; with a formatter that fails in those two ways only, it always
    returns. *)
Theorem templates_are_filled_in_place info v :
  well_formed v ->
  (forall v' evs, _format_template out v info = (Returns v', evs) ->
     rendered out info v v' /\ well_formed v') /\
  (forall e evs, _format_template out v info = (Raises e, evs) ->
     is_KeyError_or_ValueError e = false /\
     exists s, str_format out s info = Raises e) /\
  (formats_or_misses out ->
   exists v' evs, _format_template out v info = (Returns v', evs)).
Proof.
  intros Hwf. pose proof (format_template_spec info v Hwf) as Hs.
  destruct (_format_template out v info) as [[v'|e] evs].
  - split; [|split]; [intros ? ? [= <- <-]; apply Hs|done|eauto].
  - destruct Hs as [[He (s & Hs)] _].
    split; [|split]; [done|intros ? ? [= <- <-]; eauto|].
    intros Hout. apply Hout in Hs. congruence.
Qed.

(** X17. [_build_payload] gives the body of the configuration with its
    templates filled in, key by key; it raises [ValueError] exactly when the
    body is empty, and otherwise raises only what [str.format] raised and
    [_format_template] does not catch. *)
Theorem build_payload_needs_a_body self info :
  well_formed (JDict (body_config self)) ->
  match _build_payload out self info with
  | (Returns payload, evs) =>
      body_config self <> [] /\
      rendered out info (JDict (body_config self)) (JDict payload) /\
      keys payload = keys (body_config self)
  | (Raises e, evs) =>
      if is_ValueError e then body_config self = []
      else body_config self <> [] /\
           is_KeyError_or_ValueError e = false /\
           exists s, str_format out s info = Raises e
  end.
Proof.
  intros Hwf. apply well_formed_dict in Hwf as [Hnd Hwf].
  unfold _build_payload.
  pose proof (for_items_spec (fun v => _format_template out v info)
                (fun v v' => rendered out info v v' /\ well_formed v')
                (fun ev => True)
                (fun e => is_KeyError_or_ValueError e = false /\
                          exists s, str_format out s info = Raises e)
                (body_config self) []) as Hloop.
  destruct (for_items _ (body_config self) []) as [[payload|e] evs] eqn:Hfi.
  - destruct Hloop as [(items' & -> & H2) _]; [|done|].
    { apply Forall_forall. intros kv Hin. rewrite Forall_forall in Hwf.
      pose proof (format_template_spec info kv.2 (Hwf kv Hin)) as Hs.
      destruct (_format_template out kv.2 info) as [[v'|e] evs'].
      - split; [apply Hs|]. by apply Forall_true.
      - split; [apply Hs|]. by apply Forall_true. }
    simpl app. destruct items' as [|kv' items'].
    + simpl. by inversion H2.
    + split; [by inversion H2|]. split.
      * apply rendered_dict. eapply Forall2_impl; [exact H2|]. naive_solver.
      * unfold keys.
        apply (Forall2_keys
                 (fun v v' => rendered out info v v' /\ well_formed v')
                 _ _ H2).
  - destruct Hloop as [[He Hs] _]; [|done|].
    { apply Forall_forall. intros kv Hin. rewrite Forall_forall in Hwf.
      pose proof (format_template_spec info kv.2 (Hwf kv Hin)) as Hs.
      destruct (_format_template out kv.2 info) as [[v'|e'] evs'].
      - split; [apply Hs|]. by apply Forall_true.
      - split; [apply Hs|]. by apply Forall_true. }
    destruct e; simpl in *; try done.
    all: split; [|done]; intros Hnil; by rewrite Hnil in Hfi.
Qed.

End Templates.

Section Sending.

Import Webhook.

Context (out : Outside).

Implicit Types (self : WebhookNotifier) (evs : list event).

Lemma posts_post u p t a evs : posts (Post u p t a :: evs) = Post u p t a :: posts evs.
Proof. unfold posts. by rewrite filter_cons_True. Qed.

Lemma posts_log lv l evs : posts (Log lv l :: evs) = posts evs.
Proof. unfold posts. by rewrite filter_cons_False. Qed.

Lemma posts_app evs evs' : posts (evs ++ evs') = posts evs ++ posts evs'.
Proof. apply filter_app. Qed.

Lemma posts_none evs : Forall (fun ev => is_post ev = false) evs -> posts evs = [].
Proof.
  induction 1 as [|[] evs Hev _ IH]; [done| |done]. by rewrite posts_log.
Qed.

(** What the two loops of [_format_template] emit is what their bodies
    emit. *)
Lemma for_items_events (G : event -> Prop) f items acc :
  Forall (fun kv => Forall G (f kv.2).2) items ->
  Forall G (for_items f items acc).2.
Proof.
  revert acc. induction items as [|[k v] items IH]; intros acc Hf; simpl.
  - constructor.
  - apply Forall_cons in Hf as [Hv Hf]. simpl in Hv.
    destruct (f v) as [[v'|e] evs]; [|done].
    specialize (IH (setitem k v' acc) Hf).
    destruct (for_items f items (setitem k v' acc)) as [r evs'].
    by apply Forall_app.
Qed.

Lemma comprehension_events (G : event -> Prop) f items :
  Forall (fun v => Forall G (f v).2) items ->
  Forall G (comprehension f items).2.
Proof.
  induction items as [|v items IH]; intros Hf; simpl.
  - constructor.
  - apply Forall_cons in Hf as [Hv Hf].
    destruct (f v) as [[v'|e] evs]; [|done].
    specialize (IH Hf).
    destruct (comprehension f items) as [[vs|e] evs']; by apply Forall_app.
Qed.

(** [_format_template] and [_build_payload] log, and post nothing. *)
Lemma format_template_logs info v :
  Forall (fun ev => is_post ev = false) (_format_template out v info).2.
Proof.
  induction v as [s|items IH|items IH|n|b|] using jvalue_induction;
    try (by constructor).
  - simpl. destruct (str_format out s info) as [s'|e]; [constructor|].
    destruct (is_KeyError_or_ValueError e); by repeat constructor.
  - cbn [_format_template].
    pose proof (for_items_events (fun ev => is_post ev = false)
                  (fun v => _format_template out v info) items [] IH) as Hl.
    by destruct (for_items _ items []) as [[result|e] evs].
  - cbn [_format_template].
    pose proof (comprehension_events (fun ev => is_post ev = false)
                  (fun v => _format_template out v info) items IH) as Hl.
    by destruct (comprehension _ items) as [[result|e] evs].
Qed.

Lemma build_payload_logs self info :
  Forall (fun ev => is_post ev = false) (_build_payload out self info).2.
Proof.
  unfold _build_payload.
  pose proof (for_items_events (fun ev => is_post ev = false)
                (fun v => _format_template out v info) (body_config self) [])
    as Hl.
  destruct (for_items _ (body_config self) []) as [[payload|e] evs];
    simpl in *.
  - assert (Forall (fun ev => is_post ev = false) evs) as He.
    { apply Hl, Forall_forall. intros kv _. apply format_template_logs. }
    destruct payload; apply Forall_app; by repeat constructor.
  - apply Hl, Forall_forall. intros kv _. apply format_template_logs.
Qed.

Lemma tried_again self payload todo a lv l r evs :
  went_through (Post (url self) payload (timeout self) a) = false ->
  tried self payload todo r evs ->
  tried self payload (S todo) r
        (Post (url self) payload (timeout self) a :: Log lv l :: evs).
Proof.
  intros Ha [Hall Hr]. unfold tried. rewrite posts_post, posts_log.
  split; [constructor; eauto|].
  destruct r as [[|]|e].
  - destruct Hr as (pre & last & -> & Hl & Hpre & Hlen).
    exists (Post (url self) payload (timeout self) a :: pre), last.
    repeat split; [done|by constructor|simpl; lia].
  - destruct Hr as [<- Hpre]. split; [done|by constructor].
  - destruct Hr as (He & pre & -> & Hpre & Hlen). split; [done|].
    exists (Post (url self) payload (timeout self) a :: pre).
    repeat split; [by constructor|simpl; lia].
Qed.

Lemma attempts_spec self payload todo attempt net :
  tried self payload todo
        (attempts out self payload todo attempt net).1.1
        (attempts out self payload todo attempt net).2.
Proof.
  revert attempt net. induction todo as [|todo IH]; intros attempt net.
  - simpl. unfold tried. rewrite posts_log. by repeat split; constructor.
  - cbn [attempts].
    destruct (requests_post out (url self) payload (timeout self) net)
      as [a net1] eqn:Hp.
    specialize (IH (attempt + 1) net1).
    destruct (attempts out self payload todo (attempt + 1) net1)
      as [[r net2] evs] eqn:Hrest.
    simpl in IH.
    destruct a as [code|e].
    + destruct (raise_for_status code) eqn:Hc; simpl.
      * apply tried_again; [by simpl; rewrite Hc|done].
      * unfold tried. rewrite posts_post, posts_log.
        split; [repeat constructor; eauto|].
        exists [], (Post (url self) payload (timeout self) (Status code)).
        repeat split; [by simpl; rewrite Hc|constructor|simpl; lia].
    + destruct e; simpl; try (by apply tried_again).
      unfold tried. rewrite posts_post.
      split; [repeat constructor; eauto|]. split; [done|].
      exists []. repeat split; [constructor|simpl; lia].
Qed.

Lemma build_payload_empty self info :
  body_config self = [] ->
  exists e, _build_payload out self info = (Raises e, [Log ERROR body_missing])
            /\ is_ValueError e = true.
Proof. intros H. unfold _build_payload. rewrite H. simpl. by eexists. Qed.

Lemma logs_not_through evs ev :
  Forall (fun ev => is_post ev = false) evs -> ev ∈ evs ->
  went_through ev = true -> False.
Proof.
  intros Hl Hev Hw. rewrite Forall_forall in Hl. specialize (Hl ev Hev).
  by destruct ev.
Qed.

(** Among the events of a finished loop, a post went through exactly when
    the answer is [True], and only the last post can have gone through. *)
Lemma tried_went_through self payload todo r evs :
  tried self payload todo r evs ->
  (r = Returns true <-> exists ev, ev ∈ evs /\ went_through ev = true) /\
  (forall pre ev post, posts evs = pre ++ ev :: post -> post <> [] ->
                       went_through ev = false) /\
  (length (posts evs) <= todo)%nat.
Proof.
  assert (forall ev, ev ∈ evs -> went_through ev = true -> ev ∈ posts evs)
    as Hin.
  { intros ev Hev Hw. unfold posts. apply list_elem_of_filter.
    split; [|done]. by destruct ev as [|? ? ? []]. }
  assert (forall l pre ev post,
            Forall (fun ev => went_through ev = false) l ->
            l = pre ++ ev :: post -> went_through ev = false) as Hmid.
  { intros l pre ev post Hl ->. apply Forall_app in Hl as [_ Hl].
    by apply Forall_cons in Hl as [? _]. }
  assert (forall (l pre : list event) x ev post,
            Forall (fun ev => went_through ev = false) l ->
            l ++ [x] = pre ++ ev :: post -> post <> [] ->
            went_through ev = false) as Hlast.
  { intros l pre x ev post Hl Heq Hpost.
    destruct post as [|y post _] using rev_ind; [done|].
    rewrite app_comm_cons, app_assoc in Heq.
    apply app_inj_tail in Heq as [-> _].
    apply Forall_app in Hl as [_ Hl].
    by apply Forall_cons in Hl as [? _]. }
  intros [Hall Hr]. destruct r as [[|]|e].
  - destruct Hr as (pre & last & Hp & Hl & Hpre & Hlen). split; [|split].
    + split; [intros _|done]. exists last. split; [|done].
      assert (last ∈ posts evs) as Hx by (rewrite Hp; set_solver).
      unfold posts in Hx. by apply list_elem_of_filter in Hx as [_ ?].
    + intros pre' ev post Heq Hpost. rewrite Hp in Heq. eauto.
    + rewrite Hp, length_app. simpl. lia.
  - destruct Hr as [Hlen Hpre]. split; [|split].
    + split; [done|]. intros (ev & Hev & Hw).
      rewrite Forall_forall in Hpre. rewrite (Hpre ev) in Hw; eauto. done.
    + intros pre ev post Heq _. eauto.
    + lia.
  - destruct Hr as (He & pre & Hp & Hpre & Hlen). split; [|split].
    + split; [done|]. intros (ev & Hev & Hw).
      pose proof (Hin ev Hev Hw) as Hx. rewrite Hp in Hx.
      apply elem_of_app in Hx as [Hx|Hx].
      * rewrite Forall_forall in Hpre. rewrite (Hpre ev Hx) in Hw. done.
      * apply list_elem_of_singleton in Hx as ->. done.
    + intros pre' ev post Heq Hpost. rewrite Hp in Heq. eauto.
    + rewrite Hp, length_app. simpl. lia.
Qed.

(** X18. [_send_request] posts at most [retry_attempts] times, always the
    same payload to the url of the notifier with its timeout; it stops at
    the first post that goes through and answers [True] exactly then; it
    answers [False] without any post when the url is empty, and otherwise
    only after [retry_attempts] posts that all failed; the only exception
    it lets out is one that is no [Exception], raised by the last post. *)
Theorem send_request_stops_at_first_success self payload net :
  match _send_request out self payload net with
  | (r, net', evs) =>
      (length (posts evs) <= Z.to_nat (retry_attempts self))%nat /\
      Forall (fun ev => exists a,
                ev = Post (url self) payload (timeout self) a) (posts evs) /\
      (r = Returns true <-> exists ev, ev ∈ evs /\ went_through ev = true) /\
      (forall pre ev post, posts evs = pre ++ ev :: post -> post <> [] ->
                           went_through ev = false) /\
      (PyStr.truthy (url self) = false ->
       r = Returns false /\ net' = net /\ evs = []) /\
      (PyStr.truthy (url self) = true -> r = Returns false ->
       length (posts evs) = Z.to_nat (retry_attempts self)) /\
      (forall e, r = Raises e ->
         is_Exception e = false /\
         last (posts evs) =
         Some (Post (url self) payload (timeout self) (Fails e)))
  end.
Proof.
  unfold _send_request. destruct (PyStr.truthy (url self)) eqn:Hu; simpl.
  - pose proof (attempts_spec self payload (Z.to_nat (retry_attempts self))
                  0 net) as Ht.
    destruct (attempts out self payload _ 0 net) as [[r net'] evs].
    simpl in Ht. destruct (tried_went_through _ _ _ _ _ Ht) as (H1 & H2 & H3).
    destruct Ht as [Hall Hr].
    split; [done|]. split; [done|]. split; [exact H1|]. split; [exact H2|].
    split; [done|]. split.
    + intros _ ->. by destruct Hr.
    + intros e ->. split; [apply Hr|].
      destruct Hr as (_ & pre & -> & _). apply last_snoc.
  - split; [simpl; lia|]. split; [constructor|]. split; [|split].
    + split; [done|]. intros (ev & Hev & _). by apply elem_of_nil in Hev.
    + intros pre ev post Heq. by destruct pre.
    + done.
Qed.

(** X19. [send_ban_notification] never lets an [Exception] out: it answers
    [True] exactly when a post went through, and [False] otherwise. A
    notifier that is not enabled or has no url answers [False] at once; so
    does one without a body, after the error is logged; in both cases
    nothing is posted. It posts at most [retry_attempts] times, to the url
    of the notifier. *)
Theorem send_ban_notification_answers self info net :
  match send_ban_notification out self info net with
  | (r, net', evs) =>
      (forall e, r = Raises e -> is_Exception e = false) /\
      (r = Returns true <-> exists ev, ev ∈ evs /\ went_through ev = true) /\
      (enabled self = false \/ PyStr.truthy (url self) = false \/
       body_config self = [] ->
       r = Returns false /\ net' = net /\ posts evs = []) /\
      (length (posts evs) <= Z.to_nat (retry_attempts self))%nat /\
      Forall (fun ev => exists payload a,
                ev = Post (url self) payload (timeout self) a) (posts evs)
  end.
Proof.
  unfold send_ban_notification.
  assert (forall l : line,
            ~ exists ev, ev ∈ [Log INFO l] /\ went_through ev = true) as Hno1.
  { intros l (ev & Hev & Hw). apply list_elem_of_singleton in Hev as ->. done. }
  assert (forall l : line,
            ~ exists ev, ev ∈ [Log ERROR l] /\ went_through ev = true) as Hno2.
  { intros l (ev & Hev & Hw). apply list_elem_of_singleton in Hev as ->. done. }
  destruct (enabled self) eqn:Hen; simpl.
  2: { split; [done|]. split; [split; [done|by intros ?%Hno1]|].
       split; [done|]. split; [simpl; lia|constructor]. }
  destruct (PyStr.truthy (url self)) eqn:Hu; simpl.
  2: { split; [done|]. split; [split; [done|by intros ?%Hno2]|].
       split; [done|]. split; [simpl; lia|constructor]. }
  pose proof (build_payload_logs self info) as Hlogs.
  pose proof (build_payload_empty self info) as Hempty.
  destruct (_build_payload out self info) as [[payload|e] evs]; simpl in Hlogs.
  - assert (body_config self <> []) as Hbody.
    { intros Hb. by destruct (Hempty Hb) as (e & ? & _). }
    unfold _send_request. rewrite Hu. simpl.
    pose proof (attempts_spec self payload (Z.to_nat (retry_attempts self))
                  0 net) as Ht.
    destruct (attempts out self payload _ 0 net) as [[r net'] evs'].
    simpl in Ht. destruct (tried_went_through _ _ _ _ _ Ht) as (H1 & _ & H3).
    destruct Ht as [Hall Hr].
    assert (posts (evs ++ evs') = posts evs') as Hposts
        by (by rewrite posts_app, (posts_none evs)).
    assert ((exists ev, ev ∈ evs ++ evs' /\ went_through ev = true) <->
            (exists ev, ev ∈ evs' /\ went_through ev = true)) as Hthrough.
    { split; intros (ev & Hev & Hw); exists ev; (split; [|done]).
      - apply elem_of_app in Hev as [Hev|Hev]; [|done].
        by destruct (logs_not_through evs ev).
      - apply elem_of_app. by right. }
    assert (Forall (fun ev => exists payload a,
                      ev = Post (url self) payload (timeout self) a)
                   (posts evs')) as Hall'.
    { eapply Forall_impl; [exact Hall|]. intros ev [a ->]. eauto. }
    destruct r as [b|e].
    + split; [done|]. split; [by rewrite Hthrough|].
      split; [by intros [|[|]]|]. by rewrite Hposts.
    + destruct Hr as [He _]. destruct e; try done. simpl.
      split; [by intros ? [= <-]|]. split.
      { split; [done|]. rewrite Hthrough, <- H1. done. }
      split; [by intros [|[|]]|]. by rewrite Hposts.
  - assert (forall l : line,
              ~ exists ev, ev ∈ evs ++ [Log ERROR l] /\ went_through ev = true)
      as Hno3.
    { intros l (ev & Hev & Hw). apply elem_of_app in Hev as [Hev|Hev].
      - by destruct (logs_not_through evs ev).
      - apply list_elem_of_singleton in Hev as ->. done. }
    assert (forall l : line, posts (evs ++ [Log ERROR l]) = []) as Hp3.
    { intros l. by rewrite posts_app, (posts_none evs), posts_log. }
    destruct (is_ValueError e) eqn:Hv; [|destruct (is_Exception e) eqn:He].
    + split; [done|]. split; [split; [done|by intros ?%Hno3]|].
      rewrite Hp3. split; [done|]. split; [simpl; lia|constructor].
    + split; [done|]. split; [split; [done|by intros ?%Hno3]|].
      rewrite Hp3. split; [done|]. split; [simpl; lia|constructor].
    + split; [by intros ? [= <-]|]. split.
      { split; [done|]. intros (ev & Hev & Hw).
        by destruct (logs_not_through evs ev). }
      rewrite (posts_none evs) by done.
      split; [|split; [simpl; lia|constructor]].
      intros [|[|Hb]]; [done..|].
      destruct (Hempty Hb) as (e' & [= <- _] & He'). congruence.
Qed.

(** X20. [__init__] leaves a notifier enabled only if the configuration
    enables it and gives a url that is not empty; a notifier it leaves
    disabled answers [False] to every notification, logs that it is not
    enabled, and does not touch the net. *)
Theorem notifier_without_url_is_disabled c :
  (enabled (__init__ c).1 = true <->
   cfg_enabled c = Some true /\
   PyStr.truthy (get_default (cfg_url c) "") = true) /\
  (enabled (__init__ c).1 = true -> PyStr.truthy (url (__init__ c).1) = true) /\
  (forall info net,
     enabled (__init__ c).1 = false ->
     send_ban_notification out (__init__ c).1 info net =
     (Returns false, net, [Log INFO not_enabled])).
Proof.
  split; [|split].
  - unfold __init__. destruct (cfg_enabled c) as [[|]|]; simpl;
      destruct (PyStr.truthy (get_default (cfg_url c) "")); simpl; naive_solver.
  - unfold __init__. destruct (cfg_enabled c) as [[|]|]; simpl;
      destruct (PyStr.truthy (get_default (cfg_url c) "")) eqn:Hu; simpl; done.
  - intros info net Hen. unfold send_ban_notification. by rewrite Hen.
Qed.

End Sending.

Lemma templates_are_filled_in_place_witness :
  Webhook._format_template (Webhook.scripted_outside (fun _ => Webhook.Status 200))
    (Webhook.JDict Webhook.sample_body) Webhook.sample_info =
  (Webhook.Returns
     (Webhook.JDict
        [("title", Webhook.JStr "alice");
         ("text", Webhook.JStr "{");
         ("tags", Webhook.JList [Webhook.JStr "ban"; Webhook.JInt 1])]),
   [Webhook.Log Webhook.WARNING
      (Webhook.template_failed
         (Webhook.ValueError "Single '{' encountered in format string"))]) /\
  Webhook.rendered (Webhook.scripted_outside (fun _ => Webhook.Status 200))
    Webhook.sample_info
    (Webhook.JDict Webhook.sample_body)
    (Webhook.JDict
        [("title", Webhook.JStr "alice");
         ("text", Webhook.JStr "{");
         ("tags", Webhook.JList [Webhook.JStr "ban"; Webhook.JInt 1])]).
Proof.
  split; [by vm_compute|].
  eapply (templates_are_filled_in_place
            (Webhook.scripted_outside (fun _ => Webhook.Status 200))
            Webhook.sample_info (Webhook.JDict Webhook.sample_body)).
  - simpl. split; [|done].
    repeat (apply NoDup_cons; split; [set_solver|]). apply NoDup_nil_2.
  - by vm_compute.
Defined.

(** * The configuration loader of config_loader.py *)

Section Loading.

Import Webhook ConfigLoader.

Implicit Types (user : gmap string (option section))
         (defaults : gmap string section).

(** What the merge loop builds: each section of the defaults updated with
    the section of the user, the other sections of the user as they are;
    the defaults end up the same way. It raises exactly when the user
    leaves a section of the defaults empty. *)
Lemma merge_spec user defaults :
  match map_fold merge_section (Some (Some <$> defaults, defaults)) user with
  | None => empties_a_section user defaults
  | Some (config, defaults') =>
      ~ empties_a_section user defaults /\
      (forall sec,
         config !! sec =
         match defaults !! sec with
         | Some t => Some (Some (match user !! sec with
                                 | Some (Some s) => s ∪ t
                                 | _ => t
                                 end))
         | None => user !! sec
         end) /\
      (forall sec,
         defaults' !! sec =
         match defaults !! sec with
         | Some t => Some (match user !! sec with
                           | Some (Some s) => s ∪ t
                           | _ => t
                           end)
         | None => None
         end)
  end.
Proof.
  apply (map_fold_weak_ind
           (fun r user =>
              match r with
              | None => empties_a_section user defaults
              | Some (config, defaults') =>
                  ~ empties_a_section user defaults /\
                  (forall sec,
                     config !! sec =
                     match defaults !! sec with
                     | Some t => Some (Some (match user !! sec with
                                             | Some (Some s) => s ∪ t
                                             | _ => t
                                             end))
                     | None => user !! sec
                     end) /\
                  (forall sec,
                     defaults' !! sec =
                     match defaults !! sec with
                     | Some t => Some (match user !! sec with
                                       | Some (Some s) => s ∪ t
                                       | _ => t
                                       end)
                     | None => None
                     end)
              end)).
  - split; [|split].
    + intros (sec & _ & Hs). by rewrite lookup_empty in Hs.
    + intros sec. rewrite lookup_fmap, lookup_empty.
      by destruct (defaults !! sec).
    + intros sec. rewrite lookup_empty. by destruct (defaults !! sec).
  - intros i x m [[config defaults']|] Hi; simpl.
    2: { intros (sec & Hd & Hs). exists sec. split; [done|].
         rewrite lookup_insert_ne; [done|]. intros <-. congruence. }
    intros (Hne & Hc & Hd).
    assert (forall s, x = Some s \/ defaults !! i = None ->
              ~ empties_a_section (<[i:=x]> m) defaults) as Hne'.
    { intros s Hx (sec & Hsec & Hs). destruct (decide (sec = i)) as [->|Hsi].
      - rewrite lookup_insert_eq in Hs. destruct Hx as [->|Hx]; [done|].
        rewrite Hx in Hsec. by destruct Hsec.
      - rewrite lookup_insert_ne in Hs by done. apply Hne. by exists sec. }
    rewrite (Hc i), Hi. destruct (defaults !! i) as [t|] eqn:Hdi.
    + destruct x as [s|].
      * rewrite (Hd i), Hdi, bool_decide_eq_true_2 by eauto.
        split; [by apply (Hne' s); left|].
        split; intros sec; (destruct (decide (sec = i)) as [->|Hsi];
          [rewrite !lookup_insert_eq, Hdi; done
          |rewrite !lookup_insert_ne by done; auto]).
      * exists i. rewrite lookup_insert_eq. eauto.
    + split; [by apply (Hne' ∅); right|].
      split; intros sec.
      * destruct (decide (sec = i)) as [->|Hsi].
        -- by rewrite !lookup_insert_eq, Hdi.
        -- rewrite !lookup_insert_ne by done. auto.
      * rewrite Hd. destruct (decide (sec = i)) as [->|Hsi].
        -- by rewrite Hdi.
        -- by rewrite lookup_insert_ne.
Qed.

(** X21. In the configuration [load_config] returns, a field has the
    value the user gives it, and otherwise its value in the defaults: the
    user's sections override the defaults field by field, the fields and
    sections the user does not mention stay, and the sections the defaults
    do not know are taken over. *)
Theorem user_values_override_defaults user defaults config defaults' :
  load_config user defaults = Returns config defaults' ->
  forall sec name,
    field config sec name =
    match field user sec name with
    | Some v => Some v
    | None => field (Some <$> defaults) sec name
    end.
Proof.
  unfold load_config. pose proof (merge_spec user defaults) as Hm.
  destruct (map_fold merge_section _ user) as [[config0 defaults0]|]; [|done].
  destruct Hm as (Hne & Hc & _).
  destruct (missing_fields config0 required_fields) as [[|]|]; [|done..].
  intros [= <- <-] sec name. unfold field.
  rewrite Hc, lookup_fmap.
  destruct (defaults !! sec) as [t|] eqn:Hd; simpl.
  - destruct (user !! sec) as [[s|]|] eqn:Hu; simpl;
      [|by exfalso; apply Hne; exists sec; eauto|done].
    unfold section in *. rewrite lookup_union.
    destruct (s !! name), (t !! name); done.
  - destruct (user !! sec) as [[s|]|]; [|done..]. by destruct (s !! name).
Qed.

(** The missing fields, from the sections of the merged configuration. *)
Lemma missing_fields_emby config (d : section) :
  config !! "emby" = Some (Some d) ->
  missing_fields config required_fields =
  Some ((if match d !! "server_url" with Some v => truthy v | None => false end
         then [] else ["emby.server_url"]) ++
        (if match d !! "api_key" with Some v => truthy v | None => false end
         then [] else ["emby.api_key"])).
Proof.
  intros Hd. unfold missing_fields, required_fields, field_missing.
  rewrite Hd.
  destruct (match d !! "server_url" with Some v => truthy v | None => false end),
           (match d !! "api_key" with Some v => truthy v | None => false end);
    done.
Qed.

(** X22. The check of the required fields, against the defaults shipped:
    [load_config] exits exactly when the user sets [emby.server_url] or
    [emby.api_key] to a value that counts as false, and names those fields;
    a file that does not mention them passes, with the placeholders of
    [DEFAULT_CONFIG] in their place. It raises exactly when the file leaves
    one of the five sections of the defaults empty. *)
Theorem placeholders_pass_the_check user :
  match load_config user DEFAULT_CONFIG with
  | Returns config _ =>
      ~ empties_a_section user DEFAULT_CONFIG /\
      emptied user "emby" "server_url" ++ emptied user "emby" "api_key" = []
  | Exits missing _ =>
      ~ empties_a_section user DEFAULT_CONFIG /\
      missing <> [] /\
      missing = emptied user "emby" "server_url" ++ emptied user "emby" "api_key"
  | Raises => empties_a_section user DEFAULT_CONFIG
  end.
Proof.
  unfold load_config. pose proof (merge_spec user DEFAULT_CONFIG) as Hm.
  destruct (map_fold merge_section _ user) as [[config defaults']|]; [|done].
  destruct Hm as (Hne & Hc & _).
  pose proof (Hc "emby") as He.
  change (DEFAULT_CONFIG !! "emby") with
    (Some (list_to_map [("server_url", JStr "https://emby.example.com");
                        ("api_key", JStr "your_api_key_here")] : section)) in He.
  cbv beta iota in He.
  rewrite (missing_fields_emby _ _ He).
  assert (forall name (s : section) (t : section) v,
            t !! name = Some v -> truthy v = true ->
            user !! "emby" = Some (Some s) ->
            (if match (s ∪ t) !! name with Some v => truthy v | None => false end
             then [] else ["emby" +:+ "." +:+ name]) =
            emptied user "emby" name) as Hset.
  { intros name s t v Ht Hv Hu. unfold emptied, field, section in *.
    rewrite Hu, lookup_union.
    destruct (s !! name) as [w|]; rewrite Ht; simpl; [done|by rewrite Hv]. }
  destruct (user !! "emby") as [[s|]|] eqn:Hu.
  - rewrite (Hset "server_url" s _ (JStr "https://emby.example.com")),
            (Hset "api_key" s _ (JStr "your_api_key_here")) by done.
    destruct (emptied user "emby" "server_url" ++ emptied user "emby" "api_key");
      done.
  - exfalso. apply Hne. exists "emby". split; [|done]. by eexists.
  - unfold emptied, field. rewrite Hu. by vm_compute.
Qed.

(** X23. [load_config] rewrites [DEFAULT_CONFIG]: the sections it shares
    with the configuration it returns are left as merged, so that a second
    load, of a file that sets nothing, returns the values of the first load
    and not the defaults shipped. *)
Theorem load_config_rewrites_DEFAULT_CONFIG user defaults config defaults' :
  is_Some (defaults !! "emby") ->
  load_config user defaults = Returns config defaults' ->
  dom defaults' = dom defaults /\
  (forall sec, is_Some (defaults !! sec) ->
               config !! sec = Some <$> defaults' !! sec) /\
  load_config ∅ defaults' = Returns (Some <$> defaults') defaults'.
Proof.
  intros [t Ht]. unfold load_config at 1.
  pose proof (merge_spec user defaults) as Hm.
  destruct (map_fold merge_section _ user) as [[config0 defaults0]|]; [|done].
  destruct Hm as (Hne & Hc & Hd).
  destruct (missing_fields config0 required_fields) as [[|]|] eqn:Hmiss;
    [|done..].
  intros [= <- <-]. split; [|split].
  - apply set_eq. intros sec. rewrite !elem_of_dom, Hd.
    destruct (defaults !! sec); [|by split; intros []].
    split; eauto.
  - intros sec [t' Hs]. by rewrite Hc, Hd, Hs.
  - unfold load_config. rewrite map_fold_empty.
    pose proof (Hc "emby") as Hce. rewrite Ht in Hce.
    assert ((Some <$> defaults0) !! "emby" = config0 !! "emby") as He
        by (by rewrite lookup_fmap, Hce, Hd, Ht).
    rewrite Hce in He.
    rewrite (missing_fields_emby _ _ He).
    rewrite (missing_fields_emby _ _ Hce) in Hmiss.
    injection Hmiss as ->. done.
Qed.

End Loading.

(** ** The same, on concrete inputs *)

Lemma build_payload_needs_a_body_witness :
  match Webhook._build_payload
          (Webhook.scripted_outside (fun _ => Webhook.Status 200))
          Webhook.sample_notifier Webhook.sample_info with
  | (Webhook.Returns payload, evs) =>
      Webhook.body_config Webhook.sample_notifier <> [] /\
      Webhook.rendered (Webhook.scripted_outside (fun _ => Webhook.Status 200))
        Webhook.sample_info
        (Webhook.JDict (Webhook.body_config Webhook.sample_notifier))
        (Webhook.JDict payload) /\
      Webhook.keys payload =
      Webhook.keys (Webhook.body_config Webhook.sample_notifier)
  | (Webhook.Raises e, evs) =>
      if Webhook.is_ValueError e
      then Webhook.body_config Webhook.sample_notifier = []
      else Webhook.body_config Webhook.sample_notifier <> [] /\
           Webhook.is_KeyError_or_ValueError e = false /\
           exists s,
             Webhook.str_format
               (Webhook.scripted_outside (fun _ => Webhook.Status 200)) s
               Webhook.sample_info = Webhook.Raises e
  end.
Proof.
  apply (build_payload_needs_a_body
           (Webhook.scripted_outside (fun _ => Webhook.Status 200))
           Webhook.sample_notifier Webhook.sample_info).
  simpl. split; [|done].
  repeat (apply NoDup_cons; split; [set_solver|]). apply NoDup_nil_2.
Defined.

Lemma user_values_override_defaults_witness :
  ConfigLoader.load_config ConfigLoader.sample_user_config
    ConfigLoader.DEFAULT_CONFIG =
  ConfigLoader.Returns ConfigLoader.sample_config ConfigLoader.sample_defaults /\
  ConfigLoader.field ConfigLoader.sample_config "emby" "api_key" =
  match ConfigLoader.field ConfigLoader.sample_user_config "emby" "api_key" with
  | Some v => Some v
  | None =>
      ConfigLoader.field (Some <$> ConfigLoader.DEFAULT_CONFIG) "emby" "api_key"
  end.
Proof.
  assert (ConfigLoader.load_config ConfigLoader.sample_user_config
            ConfigLoader.DEFAULT_CONFIG =
          ConfigLoader.Returns ConfigLoader.sample_config
            ConfigLoader.sample_defaults) as H by (by vm_compute).
  split; [exact H|].
  exact (user_values_override_defaults _ _ _ _ H "emby" "api_key").
Defined.

Lemma load_config_rewrites_DEFAULT_CONFIG_witness :
  dom ConfigLoader.sample_defaults = dom ConfigLoader.DEFAULT_CONFIG /\
  (forall sec, is_Some (ConfigLoader.DEFAULT_CONFIG !! sec) ->
               ConfigLoader.sample_config !! sec =
               Some <$> ConfigLoader.sample_defaults !! sec) /\
  ConfigLoader.load_config ∅ ConfigLoader.sample_defaults =
  ConfigLoader.Returns (Some <$> ConfigLoader.sample_defaults)
    ConfigLoader.sample_defaults.
Proof.
  apply (load_config_rewrites_DEFAULT_CONFIG ConfigLoader.sample_user_config).
  - eexists. by vm_compute.
  - by vm_compute.
Defined.
